(** * SublimeGtags, [gtags.py]: a shallow embedding and its properties

    The module under study drives GNU GLOBAL from an editor: it looks for the
    directory holding the [GTAGS] marker, runs [global]/[gtags] as
    subprocesses, parses their line-oriented output and computes the set of
    files reachable from a source file through quoted [#include] directives.

    Text is modelled by [string] (8-bit characters).  The flag [py3] stands
    for the test [int(sublime.version()) >= 3000] of the source: it selects
    Python 3 text ([str] of code points, here restricted to the first 256)
    or Python 2 byte strings, which differ in what counts as white space and
    as a line boundary.

    Pure functions are functions.  The regular expressions are data, run by
    a backtracking matcher for the fragment of [re] they use.  The
    recursion of [find_tags_root] and the loop of [_find_all_includes] are
    bounded by a fuel argument; the loop is also given as a step relation,
    since [set.pop] takes an element of its own choice.  The methods of
    [TagSubprocess] and [TagFile] run in a state monad over a store of
    dictionaries, with a log of the calls of [Popen] and the exceptions
    the code can raise; the file system, the platform and the external
    programs make up a [world]. *)

From Stdlib Require Import Ascii String ZArith Lia.
From stdpp Require Import base option list strings gmap sets relations.

#[local] Set Warnings "-clear-no-such-hyp".

Local Open Scope char_scope.

(** * The embedding *)

(** ** Characters *)

Definition nl : ascii := "010".
Definition cr : ascii := "013".
Definition tab : ascii := "009".
Definition dquote : ascii := "034".
Definition slash : ascii := "/".

(** [\s] and [str.isspace]: the six ASCII blanks, and for Python 3 text
    also the separators 0x1c-0x1f, NEL (0x85) and the no-break space. *)
Definition isspace (py3 : bool) (c : ascii) : bool :=
  match c with
  | "009" | "010" | "011" | "012" | "013" | " " => true
  | "028" | "029" | "030" | "031" | "133" | "160" => py3
  | _ => false
  end.

(** Line boundaries of [splitlines], other than the pair CR LF. *)
Definition islinebreak (py3 : bool) (c : ascii) : bool :=
  match c with
  | "010" | "013" => true
  | "011" | "012" | "028" | "029" | "030" | "133" => py3
  | _ => false
  end.

Definition ascii_eqb (a b : ascii) : bool := bool_decide (a = b).

Local Close Scope char_scope.

(** ** Python values

    The values stored in the dictionaries of the program: match groups,
    keyword arguments of [Popen], environment entries. *)

Inductive pyval :=
  | VNone
  | VBool (b : bool)
  | VInt (z : Z)
  | VStr (s : string)
  | VBytes (b : string)   (* Python 3 [bytes] *)
  | VPipe                 (* subprocess.PIPE *)
  | VRef (l : nat).       (* a reference to a dictionary of the store *)

Global Instance pyval_eq_dec : EqDecision pyval.
Proof. solve_decision. Defined.

(** ** String primitives *)

Fixpoint take_while (p : ascii → bool) (s : string) : string :=
  match s with
  | String c s' => if p c then String c (take_while p s') else EmptyString
  | EmptyString => EmptyString
  end.

Fixpoint drop_while (p : ascii → bool) (s : string) : string :=
  match s with
  | String c s' => if p c then drop_while p s' else s
  | EmptyString => EmptyString
  end.

Fixpoint str_take (n : nat) (s : string) : string :=
  match n, s with
  | S n', String c s' => String c (str_take n' s')
  | _, _ => EmptyString
  end.

Fixpoint str_drop (n : nat) (s : string) : string :=
  match n, s with
  | S n', String _ s' => str_drop n' s'
  | _, _ => s
  end.

Fixpoint str_all (p : ascii → bool) (s : string) : bool :=
  match s with
  | String c s' => p c && str_all p s'
  | EmptyString => true
  end.

(** [s.lstrip()] *)
Definition lstrip (py3 : bool) (s : string) : string :=
  drop_while (isspace py3) s.

(** [s.startswith(pre)] *)
Fixpoint startswith (pre s : string) : bool :=
  match pre, s with
  | EmptyString, _ => true
  | String a pre', String b s' => ascii_eqb a b && startswith pre' s'
  | String _ _, EmptyString => false
  end.

(** [sep.join(l)] *)
Fixpoint join (sep : string) (l : list string) : string :=
  match l with
  | [] => EmptyString
  | [x] => x
  | x :: l' => x +:+ sep +:+ join sep l'
  end.

(** ** The fragment of [re] the module uses

    A pattern is a sequence of items: one character of a class, a greedy
    repetition of a class, the two ends of a named group, or the anchor [^].
    Matching backtracks as [re] does: a repetition first takes as many
    characters as it can and gives them back one at a time while the rest of
    the pattern fails. *)

Inductive cclass :=
  | CSpace                (* \s *)
  | CNotSpace             (* [^\s] *)
  | CDot                  (* . *)
  | CLit (c : ascii).

Definition in_class (py3 : bool) (k : cclass) (c : ascii) : bool :=
  match k with
  | CSpace => isspace py3 c
  | CNotSpace => negb (isspace py3 c)
  | CDot => negb (ascii_eqb c nl)
  | CLit a => ascii_eqb c a
  end.

Inductive item :=
  | IOne (k : cclass)
  | IStar (k : cclass)
  | IPlus (k : cclass)
  | IOpen (name : string)
  | IClose (name : string)
  | IBol.

Fixpoint lit (s : string) : list item :=
  match s with
  | String c s' => IOne (CLit c) :: lit s'
  | EmptyString => []
  end.

(** Captured groups, most recent first; a group that is open is recorded
    with the text that was still to be read when it opened. *)
Definition captures := list (string * string).

Fixpoint assoc (name : string) (l : captures) : option string :=
  match l with
  | (n, v) :: l' => if bool_decide (n = name) then Some v else assoc name l'
  | [] => None
  end.

Definition close_group (name : string) (opened caps : captures) (s : string)
  : captures :=
  match assoc name opened with
  | Some s0 => (name, str_take (String.length s0 - String.length s) s0) :: caps
  | None => caps
  end.

Section Many.
Context {R : Type} (p : ascii → bool) (cont : nat → string → option R).

(** Greedy [p{min,}] followed by [cont]. *)
Fixpoint many (min : nat) (pos : nat) (s : string) : option R :=
  let stop := match min with 0 => cont pos s | S _ => None end in
  match s with
  | String c s' =>
      if p c then
        match many (pred min) (S pos) s' with
        | Some r => Some r
        | None => stop
        end
      else stop
  | EmptyString => stop
  end.
End Many.

Fixpoint re_match (py3 : bool) (r : list item) (opened caps : captures)
    (pos : nat) (s : string) : option captures :=
  match r with
  | [] => Some caps
  | IOne k :: r' =>
      match s with
      | String c s' =>
          if in_class py3 k c then re_match py3 r' opened caps (S pos) s'
          else None
      | EmptyString => None
      end
  | IStar k :: r' =>
      many (in_class py3 k) (re_match py3 r' opened caps) 0 pos s
  | IPlus k :: r' =>
      many (in_class py3 k) (re_match py3 r' opened caps) 1 pos s
  | IOpen name :: r' => re_match py3 r' ((name, s) :: opened) caps pos s
  | IClose name :: r' =>
      re_match py3 r' opened (close_group name opened caps s) pos s
  | IBol :: r' =>
      match pos with
      | 0 => re_match py3 r' opened caps pos s
      | S _ => None
      end
  end.

(** [pattern.search(s)]: the first position, from the left, where the
    pattern matches. *)
Fixpoint search_from (py3 : bool) (r : list item) (pos : nat) (s : string)
  : option captures :=
  match re_match py3 r [] [] pos s with
  | Some caps => Some caps
  | None =>
      match s with
      | String _ s' => search_from py3 r (S pos) s'
      | EmptyString => None
      end
  end.

Definition re_search (py3 : bool) (r : list item) (s : string)
  : option captures :=
  search_from py3 r 0 s.

(** [match.groupdict()] *)
Definition groupdict (caps : captures) : gmap string pyval :=
  list_to_map (prod_map id VStr <$> caps).

(** ** [TAGS_RE] *)

Definition TAGS_RE : list item :=
  [ IOpen "symbol"; IPlus CNotSpace; IClose "symbol"; IPlus CSpace;
    IOpen "linenum"; IPlus CNotSpace; IClose "linenum"; IPlus CSpace;
    IOpen "path"; IPlus CNotSpace; IClose "path"; IPlus CSpace;
    IOpen "signature"; IStar CDot; IClose "signature" ].

(** The loop of [TagFile._match] over the lines of the tool's output. *)
Fixpoint match_lines (py3 : bool) (lines : list string)
  : list (gmap string pyval) :=
  match lines with
  | [] => []
  | l :: lines' =>
      match re_search py3 TAGS_RE l with
      | Some caps => groupdict caps :: match_lines py3 lines'
      | None => match_lines py3 lines'
      end
  end.

(** ** More of [str] *)

(** [s.split(sep)] for a one-character separator; [maxsplit = None] is the
    default (no limit).  The result is never empty. *)
Fixpoint split_char (sep : ascii) (maxsplit : option nat) (s : string)
  : list string :=
  match s with
  | EmptyString => [EmptyString]
  | String c s' =>
      if bool_decide (maxsplit = Some 0) then [s]
      else if ascii_eqb c sep
      then EmptyString :: split_char sep (pred <$> maxsplit) s'
      else
        match split_char sep maxsplit s' with
        | w :: ws => String c w :: ws
        | [] => [String c EmptyString]
        end
  end.

(** [s.splitlines()]: [cur] holds the current line backwards, [after_cr]
    tells that the previous character was a carriage return, so that a line
    feed right after it belongs to the same boundary. *)
Fixpoint splitlines_go (py3 : bool) (after_cr : bool) (cur : string)
    (s : string) : list string :=
  match s with
  | EmptyString =>
      match cur with
      | EmptyString => []
      | _ => [String.rev cur]
      end
  | String c s' =>
      if after_cr && ascii_eqb c nl then splitlines_go py3 false cur s'
      else if islinebreak py3 c
      then String.rev cur :: splitlines_go py3 (ascii_eqb c cr) EmptyString s'
      else splitlines_go py3 false (String c cur) s'
  end.

Definition splitlines (py3 : bool) (s : string) : list string :=
  splitlines_go py3 false EmptyString s.

(** [line.split(" ", 2)[0]] *)
Definition first_column (line : string) : string :=
  default EmptyString (head (split_char " " (Some 2) line)).

(** [[line.split(" ",2)[0] for line in out.splitlines()]], the last line of
    [open_files_symbols] and of [current_include_path]. *)
Definition symbol_column (py3 : bool) (out : string) : list string :=
  first_column <$> splitlines py3 out.

(** ** The file system

    A finite table of nodes, and the resolution of a path to a node, which
    is the operating system's: several spellings may reach one node. *)

Inductive node :=
  | File (content : string)      (* the text [open(path, 'r')] delivers *)
  | Dir (entries : list string).

Record filesys := {
  fs_lookup : string → option nat;
  fs_nodes : gmap nat node;
}.

Definition fs_node (fs : filesys) (path : string) : option node :=
  match fs_lookup fs path with
  | Some i => fs_nodes fs !! i
  | None => None
  end.

(** [os.path.isfile], [os.path.isdir], [os.listdir] *)
Definition isfile (fs : filesys) (path : string) : bool :=
  match fs_node fs path with
  | Some (File _) => true
  | _ => false
  end.

Definition isdir (fs : filesys) (path : string) : bool :=
  match fs_node fs path with
  | Some (Dir _) => true
  | _ => false
  end.

Definition listdir (fs : filesys) (path : string) : list string :=
  match fs_node fs path with
  | Some (Dir entries) => entries
  | _ => []          (* an error in Python; never reached past [isdir] *)
  end.

(** The lines a file object yields, each with its line feed. *)
Fixpoint text_lines_go (cur : string) (s : string) : list string :=
  match s with
  | EmptyString =>
      match cur with
      | EmptyString => []
      | _ => [String.rev cur]
      end
  | String c s' =>
      if ascii_eqb c nl
      then String.rev (String c cur) :: text_lines_go EmptyString s'
      else text_lines_go (String c cur) s'
  end.

Definition file_lines (fs : filesys) (path : string) : list string :=
  match fs_node fs path with
  | Some (File content) => text_lines_go EmptyString content
  | _ => []
  end.

(** ** [os.path] (POSIX) *)

Definition is_slash (c : ascii) : bool := ascii_eqb c slash.

Fixpoint has_slash (s : string) : bool :=
  match s with
  | String c s' => is_slash c || has_slash s'
  | EmptyString => false
  end.

(** [p[:p.rfind('/') + 1]] *)
Fixpoint up_to_last_slash (s : string) : string :=
  match s with
  | String c s' => if has_slash s then String c (up_to_last_slash s') else EmptyString
  | EmptyString => EmptyString
  end.

(** [s.rstrip('/')] *)
Fixpoint rstrip_slash (s : string) : string :=
  match s with
  | String c s' => if str_all is_slash s then EmptyString else String c (rstrip_slash s')
  | EmptyString => EmptyString
  end.

Definition dirname (p : string) : string :=
  let head := up_to_last_slash p in
  if negb (bool_decide (head = EmptyString)) && negb (str_all is_slash head)
  then rstrip_slash head
  else head.

(** One turn of the loop of [normpath] over the components. *)
Definition normpath_step (initial_slashes : nat) (new_comps : list string)
    (comp : string) : list string :=
  if bool_decide (comp = "") || bool_decide (comp = ".") then new_comps
  else if negb (bool_decide (comp = ".."))
          || (bool_decide (initial_slashes = 0) && bool_decide (new_comps = []))
          || (negb (bool_decide (new_comps = []))
              && bool_decide (last new_comps = Some ".."))
  then new_comps ++ [comp]
  else removelast new_comps.

Definition normpath (path : string) : string :=
  if bool_decide (path = "") then "."
  else
    let initial_slashes :=
      if startswith "/" path
      then if startswith "//" path && negb (startswith "///" path) then 2 else 1
      else 0 in
    let comps := split_char slash None path in
    let new_comps := foldl (normpath_step initial_slashes) [] comps in
    let path := join "/" new_comps in
    let path := match initial_slashes with
                | 0 => path
                | 1 => "/" +:+ path
                | _ => "//" +:+ path
                end in
    if bool_decide (path = "") then "." else path.

(** ** [find_tags_root]

    The recursion is bounded by [fuel]: [None] tells that it did not come to
    an end within the bound, [Some None] that the function returned [None],
    [Some (Some d)] that it returned the directory [d]. *)
Fixpoint find_tags_root (fuel : nat) (fs : filesys) (current : string)
    (previous : option string) : option (option string) :=
  match fuel with
  | 0 => None
  | S fuel' =>
      let current := normpath current in
      if negb (isdir fs current) then Some None
      else
        let parent := dirname current in
        if bool_decide (Some parent = previous) then Some None
        else if bool_decide ("GTAGS" ∈ listdir fs current) then Some (Some current)
        else find_tags_root fuel' fs parent (Some current)
  end.

(** A file system given by the table of its absolute, normalised paths;
    relative paths are resolved from the working directory [cwd]. *)
Definition fs_of_table (cwd : string) (table : list (string * node)) : filesys :=
  {| fs_lookup path :=
       let full := if startswith "/" path then path else cwd +:+ "/" +:+ path in
       fst <$> list_find (λ e, bool_decide (e.1 = normpath full)) table;
     fs_nodes := list_to_map (imap (λ i e, (i, e.2)) table) |}.

(** ** Include directives

    The pattern of [_find_includes]: start of line, white space, the word
    #include, white space, and a quoted name, which is group 1. *)
Definition INCLUDE_RE : list item :=
  [IBol; IStar CSpace] ++ lit "#include"
  ++ [IPlus CSpace; IOne (CLit dquote); IOpen "1"; IStar CDot; IClose "1";
      IOne (CLit dquote)].

(** What one line of the file adds to [includes]. *)
Definition scan_line (py3 : bool) (includes : gset string) (line : string)
  : gset string :=
  let line := lstrip py3 line in
  if startswith "#include" line then
    match re_search py3 INCLUDE_RE line with
    | Some quoted =>
        match assoc "1" quoted with
        | Some target => {[target]} ∪ includes
        | None => includes
        end
    | None => includes
    end
  else includes.

(** The shapes of a directive: the line, white space aside, starts with the
    word #include; its argument is what follows the word and white space. *)
Definition is_directive (py3 : bool) (line : string) : bool :=
  startswith "#include" (lstrip py3 line).

Definition directive_argument (py3 : bool) (line : string) : string :=
  lstrip py3 (str_drop 8 (lstrip py3 line)).

Definition angle_form (py3 : bool) (line : string) : bool :=
  is_directive py3 line && startswith "<" (directive_argument py3 line).

Definition quoted_form (py3 : bool) (line : string) : bool :=
  is_directive py3 line
  && startswith (String dquote "") (directive_argument py3 line).

(** Every directive of the file has the angle-bracket form. *)
Definition only_angle_includes (py3 : bool) (fs : filesys) (filename : string)
  : bool :=
  forallb (λ line, implb (is_directive py3 line) (angle_form py3 line))
    (file_lines fs filename).

Definition _find_includes (py3 : bool) (fs : filesys) (filename : string)
  : gset string :=
  if negb (isfile fs filename) then ∅
  else foldl (scan_line py3) ∅ (file_lines fs filename).

Fixpoint _makefullpath (fs : filesys) (basepaths : list string)
    (filename : string) : option string :=
  match basepaths with
  | [] => None
  | path :: basepaths' =>
      if isfile fs (path +:+ "/" +:+ filename)
      then Some (path +:+ "/" +:+ filename)
      else _makefullpath fs basepaths' filename
  end.

(** ** [_find_all_includes]

    The state of the [while] loop.  [todo.pop()] removes an element of its
    own choice, so one turn of the loop is a relation: any element of [todo]
    may be the one in [progress]. *)
Record loop_state := { st_todo : gset string; st_done : gset string }.

(** The [for] loop over [includes]. *)
Definition queue_includes (fs : filesys) (basepaths : list string)
    (includes todo done_ : gset string) : gset string :=
  set_fold (λ i todo,
    match _makefullpath fs basepaths i with
    | Some j =>
        if bool_decide (j ∉ todo) && bool_decide (j ∉ done_)
        then {[j]} ∪ todo else todo
    | None => todo
    end) todo includes.

Definition loop_body (py3 : bool) (fs : filesys) (basepaths : list string)
    (progress : string) (st : loop_state) : loop_state :=
  let todo := st_todo st ∖ {[progress]} in
  let done_ := {[progress]} ∪ st_done st in
  let includes := _find_includes py3 fs progress in
  {| st_todo := queue_includes fs basepaths includes todo done_;
     st_done := done_ |}.

Inductive loop_step (py3 : bool) (fs : filesys) (basepaths : list string)
  : relation loop_state :=
  | loop_pop st progress :
      progress ∈ st_todo st →
      loop_step py3 fs basepaths st (loop_body py3 fs basepaths progress st).

Definition loop_init (filename : string) : loop_state :=
  {| st_todo := {[filename]}; st_done := ∅ |}.

(** [result] is a set the function can return: the loop has been left, with
    [todo] empty, after some sequence of turns. *)
Definition returns (py3 : bool) (fs : filesys) (basepaths : list string)
    (filename : string) (result : gset string) : Prop :=
  ∃ st, rtc (loop_step py3 fs basepaths) (loop_init filename) st
        ∧ st_todo st = ∅ ∧ st_done st = result.

(** The loop run with one choice for [pop]: the least element of [todo] in
    the order of [elements]. *)
Fixpoint _find_all_includes_run (fuel : nat) (py3 : bool) (fs : filesys)
    (basepaths : list string) (st : loop_state) : option (gset string) :=
  match fuel with
  | 0 => None
  | S fuel' =>
      match elements (st_todo st) with
      | [] => Some (st_done st)
      | progress :: _ =>
          _find_all_includes_run fuel' py3 fs basepaths
            (loop_body py3 fs basepaths progress st)
      end
  end.

Definition _find_all_includes (fuel : nat) (py3 : bool) (fs : filesys)
    (basepaths : list string) (filename : string) : option (gset string) :=
  _find_all_includes_run fuel py3 fs basepaths (loop_init filename).

(** [os.path.join(a, b)] *)
Fixpoint ends_slash (s : string) : bool :=
  match s with
  | EmptyString => false
  | String c EmptyString => is_slash c
  | String _ s' => ends_slash s'
  end.

Definition path_join (a b : string) : string :=
  if startswith "/" b then b
  else if bool_decide (a = "") || ends_slash a then a +:+ b
  else a +:+ "/" +:+ b.

(** ** The store, the processes and the editor

    Dictionaries live in a store and are named by references, so that two
    names for one dictionary see each other's updates.  What lies outside the
    module is the [world]: the platform, the variables read when the module
    is loaded, the file system, the programs that [Popen] starts, and the
    decoding of their output. *)

Record process := {
  p_stdout : string;
  p_stderr : string;
  returncode : Z;
}.

Record world := {
  w_py3 : bool;                      (* int(sublime.version()) >= 3000 *)
  IS_WINDOWS : bool;
  ENV_PATH : string;
  pathsep : string;                  (* os.pathsep *)
  expand : string → string;          (* expandvars(expanduser(path)) *)
  w_fs : filesys;
  (* [Popen(argv, **kwargs)]: the exception it raises (the program is
     missing, [cwd] is no directory, ...), or the run up to its end as
     [communicate] reports it; the store is there for the dictionaries the
     arguments refer to *)
  popen : list string → gmap string pyval → gmap nat (gmap string pyval)
          → string + process;
  decode_utf8 : string → option string;
  (* the order in which a set of paths is iterated: some order of its
     elements *)
  set_iter : gset string → list string;
  set_iter_perm : ∀ X, set_iter X ≡ₚ elements X;
}.

Record state := {
  heap : gmap nat (gmap string pyval);
  next_ref : nat;
  (* the calls of [Popen], oldest first: argument vector and keywords *)
  popen_log : list (list string * gmap string pyval);
  printed : list string;
}.

Definition state0 : state :=
  {| heap := ∅; next_ref := 0; popen_log := []; printed := [] |}.

Inductive outcome (A : Type) :=
  | Ok (a : A)
  | Raised (exn : string)
  | Diverged.
Arguments Ok {A} a.
Arguments Raised {A} exn.
Arguments Diverged {A}.

Definition M (A : Type) : Type := state → outcome A * state.

Definition ret {A} (a : A) : M A := λ σ, (Ok a, σ).

Definition bind {A B} (m : M A) (k : A → M B) : M B :=
  λ σ, match m σ with
       | (Ok a, σ') => k a σ'
       | (Raised e, σ') => (Raised e, σ')
       | (Diverged, σ') => (Diverged, σ')
       end.

Notation "'let*' x := m 'in' k" := (bind m (λ x, k))
  (at level 10, x binder, m at level 100, k at level 200).

Definition raise {A} (exn : string) : M A := λ σ, (Raised exn, σ).

(** The result of a part that does not touch the state: a value, or the
    exception raised. *)
Definition lift {A} (r : string + A) : M A :=
  match r with
  | inl exn => raise exn
  | inr a => ret a
  end.

(** A fresh dictionary. *)
Definition new_dict (d : gmap string pyval) : M nat :=
  λ σ, (Ok (next_ref σ),
        {| heap := <[next_ref σ := d]> (heap σ); next_ref := S (next_ref σ);
           popen_log := popen_log σ; printed := printed σ |}).

Definition read_dict (r : nat) : M (gmap string pyval) :=
  λ σ, (Ok (default ∅ (heap σ !! r)), σ).

Definition write_dict (r : nat) (d : gmap string pyval) : M unit :=
  λ σ, (Ok (), {| heap := <[r := d]> (heap σ); next_ref := next_ref σ;
                  popen_log := popen_log σ; printed := printed σ |}).

(** [d[key] = v] and [d.update(other)] on the dictionary that [r] names. *)
Definition setitem (r : nat) (key : string) (v : pyval) : M unit :=
  let* d := read_dict r in write_dict r (<[key := v]> d).

Definition update (r : nat) (other : gmap string pyval) : M unit :=
  let* d := read_dict r in write_dict r (other ∪ d).

Definition print (s : string) : M unit :=
  λ σ, (Ok (), {| heap := heap σ; next_ref := next_ref σ;
                  popen_log := popen_log σ; printed := printed σ ++ [s] |}).

(** [subprocess.Popen(argv, **kwargs)]: the call is logged, whether the
    process starts or [Popen] raises. *)
Definition spawn (w : world) (argv : list string) (kwargs : gmap string pyval)
  : M process :=
  λ σ, (match popen w argv kwargs (heap σ) with
        | inl exn => Raised exn
        | inr proc => Ok proc
        end,
        {| heap := heap σ; next_ref := next_ref σ;
           popen_log := popen_log σ ++ [(argv, kwargs)];
           printed := printed σ |}).

(** ** [shlex.split]

    The reader of [shlex] in POSIX mode, with [whitespace_split] set and no
    comment characters, as [shlex.split] uses it.  It is in one of four
    states: between words, in a word, in quotes, after a backslash (which
    remembers the state to go back to).  [quoted] tells that the word read
    so far had a quoted part, so that it counts even when empty.  [None]
    stands for the [ValueError] of an unclosed quote or a backslash at the
    very end. *)
Inductive shlex_state :=
  | ShBlank                           (* the state written [' '] *)
  | ShWord                            (* ['a'] *)
  | ShQuote (q : ascii)
  | ShEscape (back : option ascii).   (* [escapedstate]: ['a'] or a quote *)

Definition backslash : ascii := "092"%char.
Definition squote : ascii := "039"%char.

Definition shlex_whitespace (c : ascii) : bool :=
  ascii_eqb c " " || ascii_eqb c tab || ascii_eqb c cr || ascii_eqb c nl.

Definition shlex_quotes (c : ascii) : bool :=
  ascii_eqb c squote || ascii_eqb c dquote.

Definition add_char (token : string) (c : ascii) : string :=
  token +:+ String c "".

Fixpoint shlex_go (st : shlex_state) (quoted : bool) (token : string)
    (s : string) : option (list string) :=
  let break (rest : string) :=
    (* white space ends the word, if there is one *)
    if negb (bool_decide (token = "")) || quoted
    then cons token <$> shlex_go ShBlank false "" rest
    else shlex_go ShBlank quoted token rest in
  match s with
  | EmptyString =>
      match st with
      | ShBlank | ShWord =>
          if negb (bool_decide (token = "")) || quoted then Some [token]
          else Some []
      | ShQuote _ | ShEscape _ => None
      end
  | String c s' =>
      match st with
      | ShBlank =>
          if shlex_whitespace c then break s'
          else if ascii_eqb c backslash
          then shlex_go (ShEscape None) quoted token s'
          else if shlex_quotes c then shlex_go (ShQuote c) quoted token s'
          else shlex_go ShWord quoted (String c "") s'
      | ShWord =>
          if shlex_whitespace c then break s'
          else if shlex_quotes c then shlex_go (ShQuote c) quoted token s'
          else if ascii_eqb c backslash
          then shlex_go (ShEscape None) quoted token s'
          else shlex_go ShWord quoted (add_char token c) s'
      | ShQuote q =>
          if ascii_eqb c q then shlex_go ShWord true token s'
          else if ascii_eqb c backslash && ascii_eqb q dquote
          then shlex_go (ShEscape (Some q)) true token s'
          else shlex_go (ShQuote q) true (add_char token c) s'
      | ShEscape back =>
          let token :=
            match back with
            | Some q =>
                if negb (ascii_eqb c backslash) && negb (ascii_eqb c q)
                then add_char token backslash else token
            | None => token
            end in
          shlex_go (match back with None => ShWord | Some q => ShQuote q end)
            quoted (add_char token c) s'
      end
  end.

Definition shlex_split (s : string) : option (list string) :=
  shlex_go ShBlank false "" s.

(** ** Encoding

    Under Python 2 the texts are byte strings, and [encode('utf-8')] on a
    byte string decodes it as ASCII first: it gives the same string, or
    raises [UnicodeDecodeError] when a byte is above 127.  Under Python 3
    it gives the bytes of the code points. *)
Definition is_ascii (s : string) : bool :=
  str_all (λ c, bool_decide (nat_of_ascii c < 128)) s.

Fixpoint utf8_encode (s : string) : string :=
  match s with
  | EmptyString => EmptyString
  | String c s' =>
      let n := nat_of_ascii c in
      if bool_decide (n < 128) then String c (utf8_encode s')
      else String (ascii_of_nat (192 + n / 64))
             (String (ascii_of_nat (128 + n mod 64)) (utf8_encode s'))
  end.

(** The argument vector [create] computes from a command, or the
    exception raised on the way. *)
Definition argv_of (py3 : bool) (command : string) : string + list string :=
  if negb py3 && negb (is_ascii command) then inl "UnicodeDecodeError"
  else match shlex_split command with
       | Some argv => inr argv
       | None => inl "ValueError"
       end.

(** ** [TagSubprocess] *)

Record TagSubprocess := { default_kwargs : nat }.

Definition TagSubprocess_init (w : world) (kwargs : gmap string pyval)
  : M TagSubprocess :=
  let* r := new_dict kwargs in
  let* _ := if IS_WINDOWS w then setitem r "shell" (VBool true) else ret () in
  ret {| default_kwargs := r |}.

(** [final_kwargs] is a second name for the dictionary of [default_kwargs],
    which [update] therefore changes. *)
Definition create (w : world) (self : TagSubprocess) (command : string)
    (kwargs : gmap string pyval) : M process :=
  let final_kwargs := default_kwargs self in
  let* _ := update final_kwargs kwargs in
  let* argv := lift (argv_of (w_py3 w) command) in
  let* args := read_dict final_kwargs in
  spawn w argv args.

(** A keyword given twice in the call of [create], once by name and once
    in [kwargs], is a [TypeError]. *)
Definition stdout (w : world) (self : TagSubprocess) (command : string)
    (kwargs : gmap string pyval) : M string :=
  match kwargs !! "stdout" with
  | Some _ => raise "TypeError"
  | None =>
      let* proc := create w self command (<["stdout" := VPipe]> kwargs) in
      ret (p_stdout proc)
  end.

Definition call (w : world) (self : TagSubprocess) (command : string)
    (kwargs : gmap string pyval) : M (Z * string) :=
  match kwargs !! "stderr" with
  | Some _ => raise "TypeError"
  | None =>
      let* proc := create w self command (<["stderr" := VPipe]> kwargs) in
      ret (returncode proc, p_stderr proc)
  end.

(** ** [TagFile] *)

Record TagFile := {
  tf_env : nat;                      (* self.__env *)
  tf_root : option string;           (* self.__root *)
  subprocess : TagSubprocess;
}.

(** On Windows the expanded path is encoded: to [bytes] under Python 3,
    to the same byte string under Python 2 if it is ASCII. *)
Definition _expand_path (w : world) (path : string) : string + pyval :=
  let path := expand w path in
  if IS_WINDOWS w then
    if w_py3 w then inr (VBytes (utf8_encode path))
    else if is_ascii path then inr (VStr path)
    else inl "UnicodeDecodeError"
  else inr (VStr path).

(** [map(f, l)], read to its end: the first exception ends it. *)
Fixpoint map_raising {A B} (f : A → string + B) (l : list A)
  : string + list B :=
  match l with
  | [] => inr []
  | x :: l' =>
      match f x with
      | inl exn => inl exn
      | inr y =>
          match map_raising f l' with
          | inl exn => inl exn
          | inr ys => inr (y :: ys)
          end
      end
  end.

(** The texts of a list of values, when they all are [str]. *)
Fixpoint str_items (items : list pyval) : option (list string) :=
  match items with
  | [] => Some []
  | VStr s :: items' => cons s <$> str_items items'
  | _ :: _ => None
  end.

(** [sep.join(items)] for a [str] separator: an item that is no [str]
    raises. *)
Definition str_join (sep : string) (items : list pyval) : string + pyval :=
  match str_items items with
  | Some l => inr (VStr (join sep l))
  | None => inl "TypeError"
  end.

Definition TagFile_init (w : world) (root_dir : option string)
    (extra_paths : list string) : M TagFile :=
  let* env := new_dict {[ "PATH" := VStr (ENV_PATH w) ]} in
  let* _ := match root_dir with
            | Some d =>
                let* v := lift (_expand_path w d) in
                setitem env "GTAGSROOT" v
            | None => ret ()
            end in
  let* _ := match extra_paths with
            | [] => ret ()
            | _ =>
                let* items := lift (map_raising (_expand_path w) extra_paths) in
                let* v := lift (str_join (pathsep w) items) in
                setitem env "GTAGSLIBPATH" v
            end in
  let* sp := TagSubprocess_init w {[ "env" := VRef env ]} in
  ret {| tf_env := env; tf_root := root_dir; subprocess := sp |}.

(** The output of a command as text: decoded when the editor runs Python 3. *)
Definition decoded (w : world) (out : string) : M string :=
  if w_py3 w then
    match decode_utf8 w out with
    | Some text => ret text
    | None => raise "UnicodeDecodeError"
    end
  else ret out.

Definition start_with (w : world) (self : TagFile) (prefix : string)
  : M (list string) :=
  let* out := stdout w (subprocess self) ("global -c " +:+ prefix) ∅ in
  let* text := decoded w out in
  ret (splitlines (w_py3 w) text).

Definition _match (w : world) (self : TagFile) (pattern options : string)
  : M (list (gmap string pyval)) :=
  let* out := stdout w (subprocess self) ("global " +:+ options +:+ " " +:+ pattern) ∅ in
  let* text := decoded w out in
  ret (match_lines (w_py3 w) (splitlines (w_py3 w) text)).

Definition match_ (w : world) (self : TagFile) (pattern : string)
    (reference : bool) : M (list (gmap string pyval)) :=
  _match w self pattern ("-ax" +:+ (if reference then "r" else "")).

(** What is printed is the error stream as captured (under Python 3 a
    [bytes] object, which [print] shows in its literal form). *)
Definition rebuild (w : world) (self : TagFile) : M bool :=
  let cwd := match tf_root self with Some d => VStr d | None => VNone end in
  let* r := call w (subprocess self) "gtags -v" {[ "cwd" := cwd ]} in
  let success := bool_decide (r.1 = 0%Z) in
  let* _ := if success then ret () else print r.2 in
  ret success.

(** The list comprehension over the views: [os.path.isfile] raises on the
    [None] that [file_name()] gives for a buffer never saved. *)
Fixpoint quoted_files (fs : filesys) (views : list (option string))
  : string + list string :=
  match views with
  | [] => inr []
  | None :: _ => inl "TypeError"
  | Some x :: views' =>
      match quoted_files fs views' with
      | inl exn => inl exn
      | inr names =>
          inr (if isfile fs x
               then (String dquote x +:+ String dquote "") :: names
               else names)
      end
  end.

(** [views] are the results of [file_name()] for the views of the active
    window, in their order. *)
Definition open_files_symbols (w : world) (self : TagFile)
    (views : list (option string)) : M (list string) :=
  let* names := lift (quoted_files (w_fs w) views) in
  let files := join " " names in
  let* out := stdout w (subprocess self) ("global -q -f " +:+ files) ∅ in
  let* text := decoded w out in
  ret (symbol_column (w_py3 w) text).

(** What the window tells about its project: the name of the project
    file ([None] when the project was never saved), and the [folders] entry
    of the project data with the [path] of each folder ([None] when the
    key is missing). *)
Record project_data := {
  project_file_name : option string;
  pd_folders : option (list (option string));
}.

Fixpoint folder_paths (projectpath : string) (folders : list (option string))
  : string + list string :=
  match folders with
  | [] => inr []
  | None :: _ => inl "KeyError"
  | Some path :: folders' =>
      match folder_paths projectpath folders' with
      | inl exn => inl exn
      | inr rest => inr (normpath (path_join projectpath path) :: rest)
      end
  end.

(** The directories in which includes are looked up.  [os.path.dirname]
    raises on [None] (a [TypeError]; an [AttributeError] before
    Python 3.6). *)
Definition include_basepaths (project : option project_data)
    (filename : string) : string + list string :=
  match project with
  | None => inr [dirname filename]
  | Some pd =>
      match project_file_name pd with
      | None => inl "TypeError"
      | Some name =>
          let projectpath := dirname name in
          match pd_folders pd with
          | None => inl "KeyError"
          | Some folders => folder_paths projectpath folders
          end
      end
  end.

(** [project] is the project data of the window, [None] when it has none
    (or an empty one).  The loop is given [fuel] turns. *)
Definition current_include_path (fuel : nat) (w : world) (self : TagFile)
    (project : option project_data) (filename : string)
  : M (list string) :=
  let* basepaths := lift (include_basepaths project filename) in
  match _find_all_includes fuel (w_py3 w) (w_fs w) basepaths filename with
  | None => λ σ, (Diverged, σ)
  | Some files =>
      let* out := stdout w (subprocess self)
                    ("global -f '" +:+ join "' '" (set_iter w files) +:+ "'")
                    ∅ in
      let* text := decoded w out in
      ret (symbol_column (w_py3 w) text)
  end.

(** * Notions used in the statements and proofs *)

(** ** Runs of a call

    The states and the outcome in terms of which the runs of [create] and
    of the queries are told. *)

(** The state after the update of [create], before a process is started. *)
Definition updated (self : TagSubprocess) (kwargs : gmap string pyval)
    (σ : state) : state :=
  {| heap := <[default_kwargs self :=
                 kwargs ∪ default ∅ (heap σ !! default_kwargs self)]> (heap σ);
     next_ref := next_ref σ; popen_log := popen_log σ;
     printed := printed σ |}.

(** The same with the call of [Popen] logged. *)
Definition called (self : TagSubprocess) (argv : list string)
    (kwargs : gmap string pyval) (σ : state) : state :=
  {| heap := heap (updated self kwargs σ); next_ref := next_ref σ;
     popen_log := popen_log σ
                  ++ [(argv, kwargs ∪ default ∅ (heap σ !! default_kwargs self))];
     printed := printed σ |}.

(** What a query makes of the run of its process. *)
Definition query_outcome {A} (w : world) (f : string → A)
    (run : string + process) : outcome A :=
  match run with
  | inl exn => Raised exn
  | inr proc =>
      match (if w_py3 w then decode_utf8 w (p_stdout proc)
             else Some (p_stdout proc)) with
      | Some text => Ok (f text)
      | None => Raised "UnicodeDecodeError"
      end
  end.

(** ** Fields of a line

    [fields] is [line.split()]: the maximal runs of characters that are not
    white space.  [read_fields n] reads [n] fields, each followed by white
    space, from the head of a text. *)

Definition notspace (py3 : bool) (c : ascii) : bool := negb (isspace py3 c).
Definition notnl (c : ascii) : bool := negb (ascii_eqb c nl).

Fixpoint fields (py3 : bool) (s : string) : list string :=
  match s with
  | EmptyString => []
  | String c s' =>
      if isspace py3 c then fields py3 s'
      else
        match s' with
        | EmptyString => [String c EmptyString]
        | String c' _ =>
            if isspace py3 c' then String c EmptyString :: fields py3 s'
            else
              match fields py3 s' with
              | w :: ws => String c w :: ws
              | [] => [String c EmptyString]
              end
        end
  end.

(** Does the text end with a white space character? *)
Fixpoint ends_space (py3 : bool) (s : string) : bool :=
  match s with
  | EmptyString => false
  | String c EmptyString => isspace py3 c
  | String _ s' => ends_space py3 s'
  end.

Definition field (py3 : bool) (s : string) : option (string * string) :=
  let w := take_while (notspace py3) s in
  let r := drop_while (notspace py3) s in
  if bool_decide (w = EmptyString)
     || bool_decide (take_while (isspace py3) r = EmptyString)
  then None
  else Some (w, drop_while (isspace py3) r).

Fixpoint read_fields (py3 : bool) (n : nat) (s : string)
  : option (list string * string) :=
  match n with
  | 0 => Some ([], s)
  | S n' =>
      match field py3 s with
      | Some (w, r) =>
          match read_fields py3 n' r with
          | Some (ws, r') => Some (w :: ws, r')
          | None => None
          end
      | None => None
      end
  end.

(** The text left after [n] fields and the white space around them. *)
Fixpoint skip_fields (py3 : bool) (n : nat) (s : string) : string :=
  match n with
  | 0 => lstrip py3 s
  | S n' =>
      skip_fields py3 n' (drop_while (notspace py3) (lstrip py3 s))
  end.

(** The dictionary [TagFile._match] builds for a line with these groups. *)
Definition tag_record (symbol linenum path signature : string)
  : gmap string pyval :=
  {[ "symbol" := VStr symbol; "linenum" := VStr linenum;
     "path" := VStr path; "signature" := VStr signature ]}.

(** The groups of [TAGS_RE] read field by field. *)
Definition tag_groups (py3 : bool) (s : string) : option captures :=
  match read_fields py3 3 s with
  | Some ([sym; ln; path], r) =>
      Some [("signature", take_while notnl r); ("path", path);
            ("linenum", ln); ("symbol", sym)]
  | _ => None
  end.

(** ** Records of a batch of lines *)

(** The record of a line, told from its fields: the first three fields and
    the rest of the line, provided white space follows the third field. *)
Definition line_record (py3 : bool) (l : string) : option (gmap string pyval) :=
  match fields py3 l with
  | f1 :: f2 :: f3 :: rest =>
      if bool_decide (rest ≠ []) || ends_space py3 l
      then Some (tag_record f1 f2 f3 (take_while notnl (skip_fields py3 3 l)))
      else None
  | _ => None
  end.

(** A record written back as a line: the four groups, one blank between. *)
Definition serialize (symbol linenum path signature : string) : string :=
  join " " [symbol; linenum; path; signature].

(** ** Paths, files and the loop *)

Definition notblank (c : ascii) : bool := negb (ascii_eqb c " ").

(** The include targets written in any file of the file system. *)
Definition node_includes (py3 : bool) (n : node) : gset string :=
  match n with
  | File content => foldl (scan_line py3) ∅ (text_lines_go EmptyString content)
  | Dir _ => ∅
  end.

Definition all_includes (py3 : bool) (fs : filesys) : gset string :=
  ⋃ (node_includes py3 <$> (map_to_list (fs_nodes fs)).*2).

(** Every path the loop can ever hold: the seed, and a base path joined to
    an include target of some file. *)
Definition universe (py3 : bool) (fs : filesys) (basepaths : list string)
    (filename : string) : gset string :=
  {[filename]}
  ∪ list_to_set (path ← basepaths;
                 (λ i, path +:+ "/" +:+ i) <$> elements (all_includes py3 fs)).

Definition loop_inv (py3 : bool) (fs : filesys) (basepaths : list string)
    (filename : string) (st : loop_state) : Prop :=
  st_todo st ∪ st_done st ⊆ universe py3 fs basepaths filename
  ∧ st_todo st ## st_done st.

(** A name of a directory entry: not empty, not [.] nor [..], no slash. *)
Definition plain (c : string) : bool :=
  negb (bool_decide (c = "")) && negb (bool_decide (c = "."))
  && negb (bool_decide (c = "..")) && negb (has_slash c).

(** The absolute, normalised path with these components. *)
Definition abs_path (cs : list string) : string := "/" +:+ join "/" cs.

Definition has_marker (fs : filesys) (d : string) : bool :=
  bool_decide ("GTAGS" ∈ listdir fs d).

(** The directories below [ds] on the way down to [ds ++ cs], the upper
    one first. *)
Definition below (ds cs : list string) : list string :=
  (λ k, abs_path (ds ++ take k cs)) <$> seq 1 (length cs).

(** What [previous] can be when the walk is at the directory [cs]: nothing
    at the start, later the child the walk came from. *)
Definition came_from (cs : list string) (previous : option string) : Prop :=
  previous = None
  ∨ ∃ c, plain c = true ∧ previous = Some (abs_path (cs ++ [c])).

(** The states of the loop when [a] and [b] include each other: the start,
    [a] done and [b] queued, both done. *)
Definition cycle_states (a b : string) (st : loop_state) : Prop :=
  st = loop_init a
  ∨ (st_done st = {[a]} ∧ st_todo st = {[b]} ∖ {[a]})
  ∨ (st_done st = {[a; b]} ∧ st_todo st = ∅).

(** * Concrete inputs *)

(** The line that includes [name] in the quoted form, with its line feed. *)
Definition include_quoted (name : string) : string :=
  "#include " +:+ String dquote name +:+ String dquote (String nl "").

(** A project with a nested index: [/p] and [/p/a] both hold [GTAGS]. *)
Definition fs_nested : filesys :=
  fs_of_table "/p"
    [("/", Dir ["p"]); ("/p", Dir ["GTAGS"; "a"]);
     ("/p/a", Dir ["GTAGS"; "b"]); ("/p/a/b", Dir [])].

(** A project indexed at [/home/u/p], and a directory [/home/u/q] outside. *)
Definition fs_project : filesys :=
  fs_of_table "/home/u"
    [("/", Dir ["home"]); ("/home", Dir ["u"]); ("/home/u", Dir ["p"; "q"]);
     ("/home/u/p", Dir ["GTAGS"; "src"]); ("/home/u/p/src", Dir ["a.c"]);
     ("/home/u/p/src/a.c", File "int x;"); ("/home/u/q", Dir [])].

(** Two files that include each other, and a third with a system header. *)
Definition fs_cycle : filesys :=
  fs_of_table "/r"
    [("/", Dir ["r"]); ("/r", Dir ["a.c"; "b.h"; "c.c"]);
     ("/r/a.c", File (include_quoted "b.h"));
     ("/r/b.h", File (include_quoted "a.c"));
     ("/r/c.c", File ("#include <system.h>" +:+ String nl "int y;"))].

(** Two files in sister directories that include each other by relative
    names. *)
Definition fs_sisters : filesys :=
  fs_of_table "/r"
    [("/", Dir ["r"]); ("/r", Dir ["inc"; "src"]);
     ("/r/inc", Dir ["b.h"]); ("/r/src", Dir ["a.c"]);
     ("/r/src/a.c", File (include_quoted "../inc/b.h"));
     ("/r/inc/b.h", File (include_quoted "../src/a.c"))].

(** An editor on Python 3 whose [global] prints two symbols for the prefix
    [Exp] and nothing otherwise, and whose [gtags] fails. *)
Definition w_demo : world :=
  {| w_py3 := true; IS_WINDOWS := false; ENV_PATH := "/usr/bin";
     pathsep := ":"; expand := id; w_fs := fs_cycle;
     popen argv _ _ :=
       inr {| p_stdout :=
                if bool_decide (argv = ["global"; "-c"; "Exp"])
                then "Exp_a" +:+ String nl ("Exp_b" +:+ String nl "")
                else "";
              p_stderr := "gtags: error";
              returncode :=
                if bool_decide (argv = ["gtags"; "-v"]) then 1 else 0 |};
     decode_utf8 := Some;
     set_iter := elements;
     set_iter_perm X := Permutation_refl (elements X) |}.

(** The object [TagFile('/r')] and the state it is built in: the
    environment is dictionary 0, the default arguments dictionary 1. *)
Definition demo_init : outcome TagFile * state :=
  TagFile_init w_demo (Some "/r") [] state0.

Definition demo_tagfile : TagFile :=
  {| tf_env := 0; tf_root := Some "/r";
     subprocess := {| default_kwargs := 1 |} |}.

(** A working directory [/w] with a subdirectory [src], no index anywhere. *)
Definition fs_relative : filesys :=
  fs_of_table "/w" [("/", Dir ["w"]); ("/w", Dir ["src"]); ("/w/src", Dir [])].

(** The tactic for closed goals that evaluation decides. *)
Ltac by_compute := eapply bool_decide_eq_true_1; vm_compute; reflexivity.

(** * Further notions, for the properties beyond the claims *)

(** An include edge: [p] has a quoted directive whose target resolves,
    under the base paths, to [j]. *)
Definition includes_edge (py3 : bool) (fs : filesys) (basepaths : list string)
    (p j : string) : Prop :=
  ∃ i, i ∈ _find_includes py3 fs p ∧ _makefullpath fs basepaths i = Some j.

(** One step up of [find_tags_root]: the parent, normalised. *)
Definition up (p : string) : string := normpath (dirname p).

(** The text of lines, each closed by a line feed. *)
Fixpoint unlines (lines : list string) : string :=
  match lines with
  | [] => EmptyString
  | l :: lines' => l +:+ String nl (unlines lines')
  end.

Definition no_linebreak (py3 : bool) (s : string) : bool :=
  str_all (λ c, negb (islinebreak py3 c)) s.

(** A field: not empty, no white space.  A gap: not empty, white space only. *)
Definition is_word (py3 : bool) (s : string) : bool :=
  negb (bool_decide (s = "")) && str_all (notspace py3) s.

Definition is_gap (py3 : bool) (s : string) : bool :=
  negb (bool_decide (s = "")) && str_all (isspace py3) s.

Definition noquote (s : string) : bool :=
  str_all (λ c, negb (ascii_eqb c dquote)) s.

(** A line with a quoted directive: indentation, the word, a gap, and
    between two quotes the target; [after] is what follows the second. *)
Definition quoted_line (indent gap target after : string) : string :=
  indent +:+ "#include" +:+ gap
  +:+ String dquote (target +:+ String dquote after).

(** What holds of the loop of [_find_all_includes] at each turn: every path
    met is reached from the seed, the seed has been met, and what a
    finished file includes has been met. *)
Definition closure_inv (py3 : bool) (fs : filesys) (basepaths : list string)
    (filename : string) (st : loop_state) : Prop :=
  (∀ x, x ∈ st_todo st ∪ st_done st →
        rtc (includes_edge py3 fs basepaths) filename x)
  ∧ filename ∈ st_todo st ∪ st_done st
  ∧ (∀ x y, x ∈ st_done st → includes_edge py3 fs basepaths x y →
            y ∈ st_todo st ∪ st_done st).

(** The object the constructor returns in the state [σ]. *)
Definition fresh_tagfile (root_dir : option string) (σ : state) : TagFile :=
  {| tf_env := next_ref σ; tf_root := root_dir;
     subprocess := {| default_kwargs := S (next_ref σ) |} |}.

(** The environment dictionary of the constructor, entry by entry;
    [wrap] makes the value of an expanded path. *)
Definition env_built (w : world) (root_dir : option string)
    (extra_paths : list string) (wrap : string → pyval)
    (env : gmap string pyval) : Prop :=
  env !! "PATH" = Some (VStr (ENV_PATH w))
  ∧ env !! "GTAGSROOT" = (λ d, wrap (expand w d)) <$> root_dir
  ∧ env !! "GTAGSLIBPATH"
    = match extra_paths with
      | [] => None
      | _ => Some (VStr (join (pathsep w) (expand w <$> extra_paths)))
      end
  ∧ dom env ⊆ {["PATH"; "GTAGSROOT"; "GTAGSLIBPATH"]}.

(** The default arguments of the runner right after the construction. *)
Definition kwargs_built (w : world) (e : nat) : gmap string pyval :=
  if IS_WINDOWS w then {[ "shell" := VBool true; "env" := VRef e ]}
  else {[ "env" := VRef e ]}.

(** ** Words of a command

    A character that stands for itself in a command; a word made of such
    characters; a text that may stand between quotes of the kind [q]. *)
Definition plain_char (c : ascii) : bool :=
  negb (shlex_whitespace c) && negb (shlex_quotes c)
  && negb (ascii_eqb c backslash).

Definition shell_word (s : string) : bool :=
  negb (bool_decide (s = "")) && str_all plain_char s.

Definition quotable (q : ascii) (s : string) : bool :=
  str_all (λ c, negb (ascii_eqb c q)
                && negb (ascii_eqb c backslash && ascii_eqb q dquote)) s.

(** [s] is a way of writing the word [c] in a command: read between
    words, [s] leaves the reader in a word that holds [c]. *)
Definition spells (s c : string) : Prop :=
  ∃ quoted, (quoted = true ∨ c ≠ "")
    ∧ ∀ rest, shlex_go ShBlank false "" (s +:+ rest)
              = shlex_go ShWord quoted c rest.

(** A name between quotes of the kind [q]. *)
Definition in_quotes (q : ascii) (x : string) : string :=
  String q x +:+ String q "".

(** * Facts *)

(** ** Facts on the string primitives *)

Lemma app_cons c s t : String c s +:+ t = String c (s +:+ t).
Proof. reflexivity. Qed.

Lemma app_empty_l s : EmptyString +:+ s = s.
Proof. reflexivity. Qed.

Lemma take_drop_while p s : take_while p s +:+ drop_while p s = s.
Proof.
  induction s as [|c s IH]; simpl; [done|].
  destruct (p c); by rewrite ?app_cons, ?app_empty_l, ?IH.
Qed.

Lemma length_take_drop_while p s :
  String.length (take_while p s) + String.length (drop_while p s) = String.length s.
Proof. induction s as [|c s IH]; simpl; [done|]. destruct (p c); simpl; lia. Qed.

Lemma str_take_take_while p s :
  str_take (String.length s - String.length (drop_while p s)) s = take_while p s.
Proof.
  induction s as [|c s IH]; simpl; [done|].
  destruct (p c) eqn:E; simpl.
  - pose proof (length_take_drop_while p s).
    replace (S (String.length s) - String.length (drop_while p s))
      with (S (String.length s - String.length (drop_while p s))) by lia.
    simpl. by rewrite IH.
  - by rewrite Nat.sub_diag.
Qed.

Lemma drop_while_head p s c s' : drop_while p s = String c s' → p c = false.
Proof.
  induction s as [|a s IH]; simpl; [done|].
  destruct (p a) eqn:E; [done|]. intros [= -> _]. done.
Qed.

Lemma take_while_empty_iff p s :
  take_while p s = EmptyString ↔ drop_while p s = s.
Proof.
  destruct s as [|c s]; simpl; [done|]. destruct (p c) eqn:E; [|done].
  split; [done|]. intros H. pose proof (length_take_drop_while p s) as L.
  apply (f_equal String.length) in H. simpl in H. lia.
Qed.

(** ** Facts on the matcher *)

Section ManyFacts.
Context {R : Type} (p : ascii → bool) (cont : nat → string → option R).

(** The longest run wins as soon as the rest of the pattern accepts it. *)
Lemma many_greedy min pos s r :
  min ≤ String.length (take_while p s) →
  cont (pos + String.length (take_while p s)) (drop_while p s) = Some r →
  many p cont min pos s = Some r.
Proof.
  revert min pos. induction s as [|c s IH]; intros min pos Hmin Hc; simpl in *.
  - destruct min; [|lia]. by rewrite Nat.add_0_r in Hc.
  - destruct (p c) eqn:E; simpl in *.
    + rewrite (IH (pred min) (S pos)); [done|lia|].
      by replace (S pos + String.length (take_while p s))
        with (pos + S (String.length (take_while p s))) by lia.
    + destruct min; [|lia]. by rewrite Nat.add_0_r in Hc.
Qed.

(** When the rest of the pattern cannot start with a character of the
    repeated class, giving characters back never helps. *)
Lemma many_commit min pos s :
  (∀ c s' pos', p c = true → cont pos' (String c s') = None) →
  many p cont min pos s =
    if decide (min ≤ String.length (take_while p s))
    then cont (pos + String.length (take_while p s)) (drop_while p s)
    else None.
Proof.
  intros Hk. revert min pos.
  induction s as [|c s IH]; intros min pos; simpl.
  - destruct min; simpl; [by rewrite Nat.add_0_r|done].
  - destruct (p c) eqn:E; simpl.
    + rewrite IH.
      replace (S pos + String.length (take_while p s))
        with (pos + S (String.length (take_while p s))) by lia.
      destruct min as [|min]; simpl.
      * destruct (cont _ _) eqn:Ec; [done|]. by rewrite Hk.
      * repeat case_decide; try lia; [|done]. by destruct (cont _ _).
    + destruct min; simpl; [by rewrite Nat.add_0_r|done].
Qed.
End ManyFacts.

Section TagsRe.
Variable py3 : bool.

Lemma isspace_notspace c : isspace py3 c = negb (notspace py3 c).
Proof. unfold notspace. by rewrite negb_involutive. Qed.

Lemma re_match_spaces_stuck r o k pos c s :
  isspace py3 c = false →
  re_match py3 (IPlus CSpace :: r) o k pos (String c s) = None.
Proof. intros H. simpl. by rewrite H. Qed.

Lemma re_match_spaces_empty r o k pos :
  re_match py3 (IPlus CSpace :: r) o k pos EmptyString = None.
Proof. done. Qed.

Lemma re_match_word_stuck name r o k pos c s :
  isspace py3 c = true →
  re_match py3 (IOpen name :: IPlus CNotSpace :: r) o k pos (String c s)
  = None.
Proof. intros H. simpl. by rewrite H. Qed.

Lemma close_group_top name s0 o k s :
  close_group name ((name, s0) :: o) k s
  = (name, str_take (String.length s0 - String.length s) s0) :: k.
Proof. unfold close_group. simpl. by rewrite bool_decide_eq_true_2. Qed.

Lemma length_nonempty (s : string) : s ≠ EmptyString → 1 ≤ String.length s.
Proof. destruct s; [done|simpl; lia]. Qed.

(** A group [(?P<name>[^\s]+)] followed by [\s+]. *)
Lemma re_match_word name r o k pos s :
  re_match py3 (IOpen name :: IPlus CNotSpace :: IClose name
                :: IPlus CSpace :: r) o k pos s
  = if bool_decide (take_while (notspace py3) s = EmptyString) then None
    else re_match py3 (IPlus CSpace :: r) ((name, s) :: o)
           ((name, take_while (notspace py3) s) :: k)
           (pos + String.length (take_while (notspace py3) s))
           (drop_while (notspace py3) s).
Proof.
  change (re_match py3 (IOpen name :: IPlus CNotSpace :: IClose name
                        :: IPlus CSpace :: r) o k pos s)
    with (many (notspace py3)
            (re_match py3 (IClose name :: IPlus CSpace :: r)
               ((name, s) :: o) k) 1 pos s).
  rewrite many_commit.
  - case_decide as Hl; case_bool_decide as He.
    + rewrite He in Hl. simpl in Hl. lia.
    + change (re_match py3 (IClose name :: IPlus CSpace :: r) ((name, s) :: o) k)
        with (λ p t, re_match py3 (IPlus CSpace :: r) ((name, s) :: o)
                       (close_group name ((name, s) :: o) k t) p t).
      simpl. by rewrite close_group_top, str_take_take_while.
    + done.
    + apply length_nonempty in He. lia.
  - intros c s' pos' Hc.
    change (re_match py3 (IClose name :: IPlus CSpace :: r) ((name, s) :: o) k
              pos' (String c s'))
      with (re_match py3 (IPlus CSpace :: r) ((name, s) :: o)
              (close_group name ((name, s) :: o) k (String c s')) pos'
              (String c s')).
    apply re_match_spaces_stuck. unfold notspace in Hc.
    by destruct (isspace py3 c).
Qed.

(** [\s+] before something that cannot start with white space. *)
Lemma re_match_spaces_commit r o k pos s :
  (∀ c s' pos', isspace py3 c = true →
     re_match py3 r o k pos' (String c s') = None) →
  re_match py3 (IPlus CSpace :: r) o k pos s
  = if bool_decide (take_while (isspace py3) s = EmptyString) then None
    else re_match py3 r o k
           (pos + String.length (take_while (isspace py3) s))
           (drop_while (isspace py3) s).
Proof.
  intros Hr.
  change (re_match py3 (IPlus CSpace :: r) o k pos s)
    with (many (isspace py3) (re_match py3 r o k) 1 pos s).
  rewrite many_commit by done.
  case_decide as Hl; case_bool_decide as He; try done.
  - rewrite He in Hl. simpl in Hl. lia.
  - apply length_nonempty in He. lia.
Qed.

(** [\s+] before the last group, which accepts any text. *)
Lemma re_match_spaces_signature o k pos s :
  re_match py3 [IPlus CSpace; IOpen "signature"; IStar CDot;
                IClose "signature"] o k pos s
  = if bool_decide (take_while (isspace py3) s = EmptyString) then None
    else Some (("signature",
                take_while notnl (drop_while (isspace py3) s)) :: k).
Proof.
  case_bool_decide as He.
  - destruct s as [|c s]; [done|]. simpl in *.
    destruct (isspace py3 c); done.
  - change (re_match py3 [IPlus CSpace; IOpen "signature"; IStar CDot;
                          IClose "signature"] o k pos s)
      with (many (isspace py3)
              (re_match py3 [IOpen "signature"; IStar CDot;
                             IClose "signature"] o k) 1 pos s).
    apply many_greedy.
    + destruct (take_while (isspace py3) s); [done|simpl; lia].
    + set (t := drop_while (isspace py3) s).
      set (q := pos + _).
      change (re_match py3 [IOpen "signature"; IStar CDot; IClose "signature"]
                o k q t)
        with (many notnl
                (re_match py3 [IClose "signature"] (("signature", t) :: o) k)
                0 q t).
      apply many_greedy; [lia|].
      simpl. by rewrite close_group_top, str_take_take_while.
Qed.
End TagsRe.

Section TagsSearch.
Variable py3 : bool.

Lemma re_match_TAGS_RE pos s :
  re_match py3 TAGS_RE [] [] pos s = tag_groups py3 s.
Proof.
  unfold TAGS_RE, tag_groups. cbn [read_fields]. unfold field.
  do 2 (rewrite re_match_word;
        case_bool_decide; cbn [orb]; [done|];
        rewrite re_match_spaces_commit
          by (intros; by apply re_match_word_stuck);
        case_bool_decide; cbn [orb]; [done|]).
  rewrite re_match_word.
  case_bool_decide; cbn [orb]; [done|].
  rewrite re_match_spaces_signature.
  case_bool_decide; cbn [orb]; done.
Qed.

Lemma read_fields_length n s ws r :
  read_fields py3 n s = Some (ws, r) → length ws = n.
Proof.
  revert s ws r. induction n as [|n IH]; intros s ws r; cbn [read_fields].
  - by intros [= <- _].
  - destruct (field py3 s) as [[w t]|]; [|done].
    destruct (read_fields py3 n t) as [[ws' r']|] eqn:E; [|done].
    intros [= <- _]. simpl. f_equal. eauto.
Qed.

Lemma tag_groups_is_Some s :
  is_Some (tag_groups py3 s) ↔ is_Some (read_fields py3 3 s).
Proof.
  unfold tag_groups.
  destruct (read_fields py3 3 s) as [[ws r]|] eqn:E.
  - apply read_fields_length in E.
    destruct ws as [|a [|b [|c [|d ws]]]]; simplify_eq/=.
    split; eauto.
  - split; intros [? ?]; done.
Qed.

(** Fewer fields can be read wherever more can. *)
Lemma read_fields_weaken n s :
  is_Some (read_fields py3 (S n) s) → is_Some (read_fields py3 n s).
Proof.
  revert s. induction n as [|n IH]; intros s; [by eauto|].
  cbn [read_fields]. destruct (field py3 s) as [[w t]|]; [|by intros [? ?]].
  intros H.
  assert (is_Some (read_fields py3 (S n) t)) as [[ws r] Hws]%IH.
  { cbn [read_fields].
    destruct (field py3 t) as [[w' t']|]; [|by destruct H].
    destruct (read_fields py3 n t') as [[? ?]|]; [eauto|by destruct H]. }
  rewrite Hws. eauto.
Qed.

Lemma field_space c s : isspace py3 c = true → field py3 (String c s) = None.
Proof. intros H. unfold field, notspace. simpl. by rewrite H. Qed.

Lemma field_empty : field py3 EmptyString = None.
Proof. done. Qed.

(** A field that starts one character earlier. *)
Lemma field_cons c s :
  isspace py3 c = false →
  field py3 (String c s) =
    match s with
    | EmptyString => None
    | String c' _ =>
        if isspace py3 c' then Some (String c EmptyString, lstrip py3 s)
        else prod_map (String c) id <$> field py3 s
    end.
Proof.
  intros Hc. unfold field, notspace, lstrip. simpl. rewrite Hc. simpl.
  destruct s as [|c' s]; [done|]. simpl.
  destruct (isspace py3 c') eqn:Hc'; simpl; rewrite ?Hc'; [done|].
  destruct (bool_decide (take_while (isspace py3)
    (drop_while (λ c0, negb (isspace py3 c0)) s) = EmptyString)); done.
Qed.

Lemma read_fields_cons n c s :
  isspace py3 c = false →
  is_Some (read_fields py3 (S n) (lstrip py3 s)) →
  is_Some (read_fields py3 (S n) (String c s)).
Proof.
  intros Hc H. cbn [read_fields]. rewrite field_cons by done.
  destruct s as [|c' s].
  - destruct H as [? H]. by cbn in H.
  - destruct (isspace py3 c') eqn:Hc'.
    + apply read_fields_weaken in H as [[ws r] ->]. eauto.
    + unfold lstrip in H. cbn [drop_while] in H. rewrite Hc' in H.
      cbn [read_fields] in H.
      destruct (field py3 (String c' s)) as [[w t]|]; [|by destruct H].
      simpl. destruct (read_fields py3 n t) as [[? ?]|]; [eauto|by destruct H].
Qed.

(** [TAGS_RE.search]: the match, if any, starts at the first character
    that is not white space. *)
Lemma re_search_TAGS_RE s :
  re_search py3 TAGS_RE s = tag_groups py3 (lstrip py3 s).
Proof.
  unfold re_search. generalize 0 as pos.
  induction s as [|c s IH]; intros pos; cbn [search_from];
    rewrite re_match_TAGS_RE; unfold lstrip; cbn [drop_while];
    [by destruct (tag_groups py3 EmptyString)|].
  destruct (isspace py3 c) eqn:Hc.
  - unfold tag_groups at 1. cbn [read_fields]. rewrite field_space by done.
    apply IH.
  - destruct (tag_groups py3 (String c s)) eqn:Hg; [done|].
    rewrite IH.
    destruct (tag_groups py3 (lstrip py3 s)) eqn:Hl; [|done].
    assert (is_Some (tag_groups py3 (String c s))) as [? ?]; [|congruence].
    apply tag_groups_is_Some, read_fields_cons; [done|].
    apply tag_groups_is_Some. eauto.
Qed.

(** *** Fields read by the pattern and fields of [split] *)

Lemma fields_lstrip s : fields py3 (lstrip py3 s) = fields py3 s.
Proof.
  unfold lstrip. induction s as [|c s IH]; [done|]. cbn [drop_while].
  destruct (isspace py3 c) eqn:Hc; [|done]. rewrite IH. simpl. by rewrite Hc.
Qed.

Lemma fields_cons c s :
  fields py3 (String c s) =
    if isspace py3 c then fields py3 s
    else
      match s with
      | EmptyString => [String c EmptyString]
      | String c' _ =>
          if isspace py3 c' then String c EmptyString :: fields py3 s
          else
            match fields py3 s with
            | w :: ws => String c w :: ws
            | [] => [String c EmptyString]
            end
      end.
Proof. done. Qed.

Lemma notspace_true c : isspace py3 c = false → notspace py3 c = true.
Proof. unfold notspace. by intros ->. Qed.

Lemma notspace_false c : isspace py3 c = true → notspace py3 c = false.
Proof. unfold notspace. by intros ->. Qed.

Lemma fields_word c s :
  isspace py3 c = false →
  fields py3 (String c s)
  = take_while (notspace py3) (String c s)
    :: fields py3 (drop_while (notspace py3) (String c s)).
Proof.
  revert c. induction s as [|c' s IH]; intros c Hc;
    rewrite fields_cons, Hc.
  - cbn [take_while drop_while]. by rewrite notspace_true.
  - destruct (isspace py3 c') eqn:Hc'.
    + cbn [take_while drop_while].
      by rewrite (notspace_true c), (notspace_false c').
    + rewrite (IH c' Hc'). cbn [take_while drop_while].
      by rewrite (notspace_true c), (notspace_true c').
Qed.

Lemma lstrip_cases s :
  lstrip py3 s = EmptyString
  ∨ ∃ c t, lstrip py3 s = String c t ∧ isspace py3 c = false.
Proof.
  destruct (lstrip py3 s) as [|c t] eqn:E; [by left|right].
  exists c, t. split; [done|]. by apply drop_while_head in E.
Qed.

Lemma after_word_cases s :
  drop_while (notspace py3) s = EmptyString
  ∨ ∃ c t, drop_while (notspace py3) s = String c t ∧ isspace py3 c = true.
Proof.
  destruct (drop_while (notspace py3) s) as [|c t] eqn:E; [by left|right].
  exists c, t. split; [done|]. apply drop_while_head in E.
  unfold notspace in E. by destruct (isspace py3 c).
Qed.

Lemma fields_nil_lstrip s : fields py3 s = [] ↔ lstrip py3 s = EmptyString.
Proof.
  rewrite <-fields_lstrip.
  destruct (lstrip_cases s) as [->|(c & t & -> & Hc)]; [done|].
  rewrite fields_word by done. done.
Qed.

Lemma read_fields_fields n s ws r :
  read_fields py3 n (lstrip py3 s) = Some (ws, r) →
  ws = take n (fields py3 s) ∧ r = skip_fields py3 n s
  ∧ fields py3 s = ws ++ fields py3 r.
Proof.
  revert s ws r. induction n as [|n IH]; intros s ws r; cbn [read_fields].
  - intros [= <- <-]. by rewrite fields_lstrip.
  - destruct (field py3 (lstrip py3 s)) as [[w t]|] eqn:Hf; [|done].
    destruct (read_fields py3 n t) as [[ws' r']|] eqn:Hr; [|done].
    intros [= <- <-]. unfold field in Hf.
    destruct (bool_decide (take_while (notspace py3) (lstrip py3 s) = "")
              || _) eqn:Ho; [done|].
    apply orb_false_elim in Ho as [Hw%bool_decide_eq_false _].
    injection Hf as <- <-.
    apply (IH (drop_while (notspace py3) (lstrip py3 s))) in Hr
      as (-> & -> & Hfs).
    rewrite <-(fields_lstrip s).
    destruct (lstrip_cases s) as [E|(c & t & E & Hc)].
    { by rewrite E in Hw. }
    rewrite E in *. rewrite fields_word by done.
    cbn [skip_fields take]. rewrite E. split_and!; [done..|].
    rewrite Hfs at 1. done.
Qed.

Lemma ends_space_cons c s :
  s ≠ EmptyString → ends_space py3 (String c s) = ends_space py3 s.
Proof. by destruct s. Qed.

Lemma ends_space_drop_while p s :
  drop_while p s ≠ EmptyString →
  ends_space py3 s = ends_space py3 (drop_while p s).
Proof.
  induction s as [|c s IH]; [done|]. cbn [drop_while].
  destruct (p c); [|done]. intros H.
  rewrite ends_space_cons; [by apply IH|]. by intros ->.
Qed.

Lemma ends_space_word s :
  drop_while (notspace py3) s = EmptyString → ends_space py3 s = false.
Proof.
  induction s as [|c s IH]; [done|]. cbn [drop_while].
  destruct (notspace py3 c) eqn:Hc; [|done]. intros H.
  destruct s as [|c' s]; [|by apply IH].
  unfold notspace in Hc. simpl. by destruct (isspace py3 c).
Qed.

Lemma ends_space_blank s :
  s ≠ EmptyString → lstrip py3 s = EmptyString → ends_space py3 s = true.
Proof.
  unfold lstrip. induction s as [|c s IH]; [done|]. intros _.
  cbn [drop_while]. destruct (isspace py3 c) eqn:Hc; [|done]. intros H.
  destruct s as [|c' s]; [done|]. by apply IH.
Qed.

(** What one field at the head of a text does to the three measures. *)
Lemma field_step c t :
  isspace py3 c = false →
  let s0 := String c t in
  let u := drop_while (notspace py3) s0 in
  fields py3 s0 = take_while (notspace py3) s0 :: fields py3 u
  ∧ ((u = EmptyString ∧ field py3 s0 = None ∧ ends_space py3 s0 = false)
     ∨ (u ≠ EmptyString
        ∧ field py3 s0 = Some (take_while (notspace py3) s0, lstrip py3 u)
        ∧ ends_space py3 s0 = ends_space py3 u)).
Proof.
  intros Hc s0 u. split; [by apply fields_word|].
  assert (take_while (notspace py3) s0 ≠ "") as Hw.
  { unfold s0. cbn [take_while]. by rewrite notspace_true. }
  unfold field. fold u. rewrite (bool_decide_eq_false_2 _ Hw). cbn [orb].
  destruct (after_word_cases s0) as [Eu|(c' & t' & Eu & Hc')]; fold u in Eu.
  - left. rewrite Eu. split_and!; [done..|]. by apply ends_space_word.
  - right. assert (u ≠ "") as Hu by (by rewrite Eu).
    assert (take_while (isspace py3) u ≠ "") as Hsp.
    { rewrite Eu. cbn [take_while]. by rewrite Hc'. }
    rewrite (bool_decide_eq_false_2 _ Hsp). split_and!; [done..|].
    by apply ends_space_drop_while.
Qed.

Lemma ends_space_lstrip s :
  lstrip py3 s ≠ EmptyString →
  ends_space py3 s = ends_space py3 (lstrip py3 s).
Proof. apply ends_space_drop_while. Qed.

(** [n] fields followed by white space can be read exactly when the line
    has more than [n] fields, or has [n] and ends with white space. *)
Lemma read_fields_is_Some n s :
  is_Some (read_fields py3 (S n) (lstrip py3 s)) ↔
    S n < length (fields py3 s)
    ∨ (length (fields py3 s) = S n ∧ ends_space py3 s = true).
Proof.
  revert s. induction n as [|n IH]; intros s;
    cbn [read_fields]; rewrite <-(fields_lstrip s);
    (destruct (lstrip_cases s) as [E|(c & t & E & Hc)];
     [rewrite E; split; [by intros [? ?]|];
      simpl; intros [?|[? _]]; lia|]);
    rewrite (ends_space_lstrip s) by (by rewrite E); rewrite E;
    destruct (field_step c t Hc) as [-> [(Eu & -> & ->)|(Eu & -> & ->)]];
    cbn [length].
  - rewrite Eu. split; [by intros [? ?]|]. simpl. intros [?|[_ ?]]; [lia|done].
  - split; [intros _|by eauto].
    destruct (fields py3 (drop_while (notspace py3) (String c t)))
      as [|w ws] eqn:Efu.
    + right. split; [done|]. apply ends_space_blank; [done|].
      by apply fields_nil_lstrip.
    + left. simpl. lia.
  - rewrite Eu. split; [by intros [? ?]|]. simpl. intros [?|[? _]]; lia.
  - set (u := drop_while (notspace py3) (String c t)) in *.
    specialize (IH u). cbn [read_fields] in IH.
    destruct (field py3 (lstrip py3 u)) as [[w1 t1]|].
    + destruct (read_fields py3 n t1) as [[ws r]|].
      * split; [intros _|by eauto].
        destruct IH as [[?|[? ?]] _]; [by eauto|left; lia|right].
        split; [lia|done].
      * split; [by intros [? ?]|]. intros H.
        destruct IH as [_ [? IH]]; [|done].
        destruct H as [?|[? ?]]; [left; lia|right]. split; [lia|done].
    + split; [by intros [? ?]|]. intros H.
      destruct IH as [_ [? IH]]; [|done].
      destruct H as [?|[? ?]]; [left; lia|right]. split; [lia|done].
Qed.
End TagsSearch.

Section Records.
Variable py3 : bool.

Lemma match_lines_app l1 l2 :
  match_lines py3 (l1 ++ l2) = match_lines py3 l1 ++ match_lines py3 l2.
Proof.
  induction l1 as [|l l1 IH]; [done|]. simpl.
  destruct (re_search py3 TAGS_RE l); simpl; by rewrite IH.
Qed.

Lemma match_lines_single l :
  match_lines py3 [l] = option_list (groupdict <$> re_search py3 TAGS_RE l).
Proof. simpl. by destruct (re_search py3 TAGS_RE l). Qed.

Lemma groupdict_tag_record a b c d :
  groupdict [("signature", d); ("path", c); ("linenum", b); ("symbol", a)]
  = tag_record a b c d.
Proof.
  unfold groupdict, tag_record. simpl.
  apply map_eq. intros k.
  destruct (decide (k = "symbol")) as [->|?]; [by simplify_map_eq|].
  destruct (decide (k = "linenum")) as [->|?]; [by simplify_map_eq|].
  destruct (decide (k = "path")) as [->|?]; [by simplify_map_eq|].
  destruct (decide (k = "signature")) as [->|?]; by simplify_map_eq.
Qed.

Lemma search_line_record l :
  groupdict <$> re_search py3 TAGS_RE l = line_record py3 l.
Proof.
  rewrite re_search_TAGS_RE. unfold tag_groups, line_record.
  pose proof (read_fields_is_Some py3 2 l) as Hiff.
  destruct (read_fields py3 3 (lstrip py3 l)) as [[ws r]|] eqn:E.
  - pose proof (read_fields_length _ _ _ _ _ E) as Hlen.
    apply read_fields_fields in E as (_ & -> & Hf).
    destruct ws as [|a [|b [|c [|? ?]]]]; simplify_eq/=.
    rewrite Hf in *. simpl in *.
    destruct Hiff as [[Hgt|[Heq Hend]] _]; [by eauto|..].
    + rewrite bool_decide_eq_true_2, groupdict_tag_record; [done|].
      intros Hnil. rewrite Hnil in Hgt. simpl in Hgt. lia.
    + rewrite Hend, orb_true_r, groupdict_tag_record. done.
  - simpl. destruct (fields py3 l) as [|f1 [|f2 [|f3 rest]]]; try done.
    destruct (bool_decide (rest ≠ []) || ends_space py3 l) eqn:Ho; [|done].
    destruct Hiff as [_ [? Hiff]]; [|done].
    apply orb_true_iff in Ho as [Hr%bool_decide_eq_true|Hend].
    + left. destruct rest; [done|simpl; lia].
    + destruct rest; [right; by split|left; simpl; lia].
Qed.
End Records.

(** ** The symbol column *)

Lemma first_column_take_while line :
  first_column line = take_while notblank line.
Proof.
  unfold first_column. induction line as [|c s IH]; [done|].
  cbn [split_char take_while]. unfold notblank at 1.
  rewrite bool_decide_eq_false_2 by done.
  destruct (ascii_eqb c " "); [done|]. cbn [negb fmap option_fmap option_map].
  destruct (split_char " " (Some 2) s) as [|w ws]; simpl in *; by rewrite <-IH.
Qed.

(** ** Running the monad *)

Lemma create_run w self command kwargs σ :
  create w self command kwargs σ =
    let args := kwargs ∪ default ∅ (heap σ !! default_kwargs self) in
    match argv_of (w_py3 w) command with
    | inl exn => (Raised exn, updated self kwargs σ)
    | inr argv =>
        (match popen w argv args (heap (updated self kwargs σ)) with
         | inl exn => Raised exn
         | inr proc => Ok proc
         end, called self argv kwargs σ)
    end.
Proof.
  unfold create, update, read_dict, write_dict, spawn, bind. simpl.
  destruct (argv_of (w_py3 w) command) as [exn|argv]; [done|]. simpl.
  unfold called, updated. simpl. by rewrite lookup_insert_eq.
Qed.

Lemma create_heap w self command kwargs σ :
  heap (create w self command kwargs σ).2 = heap (updated self kwargs σ).
Proof.
  rewrite create_run. cbv zeta.
  by destruct (argv_of (w_py3 w) command).
Qed.

(** A call changes no dictionary but that of the default arguments. *)
Lemma create_frame w self command kwargs σ r :
  r ≠ default_kwargs self →
  heap (create w self command kwargs σ).2 !! r = heap σ !! r.
Proof.
  intros Hr. rewrite create_heap. simpl. by rewrite lookup_insert_ne.
Qed.

(** And it adds its own arguments to them, for good. *)
Lemma create_default_kwargs w self command kwargs σ :
  heap (create w self command kwargs σ).2 !! default_kwargs self
  = Some (kwargs ∪ default ∅ (heap σ !! default_kwargs self)).
Proof. rewrite create_heap. simpl. by rewrite lookup_insert_eq. Qed.

Lemma stdout_run w self command kwargs σ :
  kwargs !! "stdout" = None →
  stdout w self command kwargs σ =
    let kwargs' := <["stdout" := VPipe]> kwargs in
    let args := kwargs' ∪ default ∅ (heap σ !! default_kwargs self) in
    match argv_of (w_py3 w) command with
    | inl exn => (Raised exn, updated self kwargs' σ)
    | inr argv =>
        (match popen w argv args (heap (updated self kwargs' σ)) with
         | inl exn => Raised exn
         | inr proc => Ok (p_stdout proc)
         end, called self argv kwargs' σ)
    end.
Proof.
  intros Hk. unfold stdout. rewrite Hk. unfold bind.
  rewrite create_run. cbv zeta.
  destruct (argv_of (w_py3 w) command) as [exn|argv]; [done|].
  by destruct (popen w argv _ _).
Qed.

(** The shape all queries share: one process whose output is captured,
    decoded, and handed to [f]. *)
Lemma query_run {A} w self command (f : string → A) σ :
  (let* out := stdout w self command ∅ in
   let* text := decoded w out in ret (f text)) σ =
    let kwargs := <["stdout" := VPipe]> ∅ in
    let args := kwargs ∪ default ∅ (heap σ !! default_kwargs self) in
    match argv_of (w_py3 w) command with
    | inl exn => (Raised exn, updated self kwargs σ)
    | inr argv =>
        (query_outcome w f
           (popen w argv args (heap (updated self kwargs σ))),
         called self argv kwargs σ)
    end.
Proof.
  unfold bind. rewrite stdout_run by done. cbv zeta.
  destruct (argv_of (w_py3 w) command) as [exn|argv]; [done|].
  unfold query_outcome, decoded.
  destruct (popen w argv _ _) as [exn|proc]; [done|].
  destruct (w_py3 w); [destruct (decode_utf8 w _)|]; reflexivity.
Qed.

Lemma query_heap {A} w self command (f : string → A) σ :
  heap ((let* out := stdout w self command ∅ in
         let* text := decoded w out in ret (f text)) σ).2
  = heap (updated self (<["stdout" := VPipe]> ∅) σ).
Proof.
  rewrite query_run. cbv zeta. by destruct (argv_of (w_py3 w) command).
Qed.

Lemma open_files_symbols_nil w self σ :
  open_files_symbols w self [] σ =
    (let* out := stdout w (subprocess self) "global -q -f " ∅ in
     let* text := decoded w out in ret (symbol_column (w_py3 w) text)) σ.
Proof. reflexivity. Qed.

Lemma argv_of_global_q_f py3 :
  argv_of py3 "global -q -f " = inr ["global"; "-q"; "-f"].
Proof. by destruct py3. Qed.

Lemma argv_of_gtags_v py3 : argv_of py3 "gtags -v" = inr ["gtags"; "-v"].
Proof. by destruct py3. Qed.

(** ** The pattern of include directives *)

Section IncludeRe.
Variable py3 : bool.

Lemma search_from_bol r pos s :
  search_from py3 (IBol :: r) (S pos) s = None.
Proof. revert pos. induction s as [|c s IH]; intros pos; simpl; [done|apply IH]. Qed.

(** A pattern that starts with [^] matches at the start or nowhere. *)
Lemma re_search_bol r s :
  re_search py3 (IBol :: r) s = re_match py3 r [] [] 0 s.
Proof.
  unfold re_search. destruct s as [|c s]; cbn [search_from re_match].
  - by destruct (re_match py3 r [] [] 0 "").
  - rewrite search_from_bol. by destruct (re_match py3 r [] [] 0 _).
Qed.

Lemma re_match_lit p r o k pos s :
  re_match py3 (lit p ++ r) o k pos s =
    if startswith p s
    then re_match py3 r o k (pos + String.length p) (str_drop (String.length p) s)
    else None.
Proof.
  revert pos s. induction p as [|a p IH]; intros pos s.
  - simpl. rewrite Nat.add_0_r. by destruct s.
  - cbn [lit app re_match startswith String.length str_drop].
    destruct s as [|c s]; [done|]. cbn [in_class].
    unfold ascii_eqb. rewrite (bool_decide_ext (c = a) (a = c)) by done.
    case_bool_decide; cbn [andb]; [|done].
    rewrite IH. by replace (S pos + String.length p)
      with (pos + S (String.length p)) by lia.
Qed.

Lemma isspace_hash : isspace py3 "#" = false.
Proof. by destruct py3. Qed.

Lemma isspace_dquote : isspace py3 dquote = false.
Proof. by destruct py3. Qed.

(** A match of the pattern needs the word, white space and a quote. *)
Lemma include_re_quoted s caps :
  re_search py3 INCLUDE_RE s = Some caps →
  startswith "#include" (lstrip py3 s) = true
  ∧ startswith (String dquote "")
      (lstrip py3 (str_drop 8 (lstrip py3 s))) = true.
Proof.
  unfold INCLUDE_RE. cbn [app]. rewrite re_search_bol.
  change (re_match py3 (IStar CSpace :: ?r) [] [] 0 s)
    with (many (isspace py3) (re_match py3 r [] []) 0 0 s).
  rewrite many_commit; cycle 1.
  { intros c s' pos' Hc. cbn [lit app re_match in_class].
    unfold ascii_eqb. case_bool_decide; [|done].
    subst c. by rewrite isspace_hash in Hc. }
  rewrite decide_True by lia. fold (lstrip py3 s).
  rewrite (re_match_lit "#include").
  destruct (startswith "#include" (lstrip py3 s)); [|done].
  change (String.length "#include") with 8.
  set (t := str_drop 8 (lstrip py3 s)).
  rewrite re_match_spaces_commit; cycle 1.
  { intros c s' pos' Hc. cbn [re_match in_class].
    unfold ascii_eqb. case_bool_decide; [|done].
    subst c. by rewrite isspace_dquote in Hc. }
  case_bool_decide; [done|]. fold (lstrip py3 t).
  destruct (lstrip py3 t) as [|c u]; [done|].
  cbn [re_match in_class startswith]. unfold ascii_eqb.
  rewrite (bool_decide_ext (c = dquote) (dquote = c)) by done.
  case_bool_decide; done.
Qed.

Lemma lstrip_idemp s : lstrip py3 (lstrip py3 s) = lstrip py3 s.
Proof.
  destruct (lstrip_cases py3 s) as [->|(c & t & -> & Hc)]; [done|].
  unfold lstrip. simpl. by rewrite Hc.
Qed.

Lemma scan_line_elem includes line t :
  t ∈ scan_line py3 includes line →
  t ∈ includes ∨ quoted_form py3 line = true.
Proof.
  unfold scan_line, quoted_form, is_directive, directive_argument.
  destruct (startswith "#include" (lstrip py3 line)) eqn:Hd; [|by left].
  destruct (re_search py3 INCLUDE_RE (lstrip py3 line)) as [caps|] eqn:Hs;
    [|by left].
  apply include_re_quoted in Hs as [_ Hq]. rewrite lstrip_idemp in Hq.
  intros _. right. by rewrite Hq.
Qed.

Lemma foldl_scan_line_elem lines includes t :
  t ∈ foldl (scan_line py3) includes lines →
  t ∈ includes ∨ ∃ line, line ∈ lines ∧ quoted_form py3 line = true.
Proof.
  revert includes. induction lines as [|l lines IH]; intros includes; simpl.
  - by left.
  - intros [Hin|(line & ? & ?)]%IH.
    + apply scan_line_elem in Hin as [?|?]; [by left|right].
      exists l. split; [left|done].
    + right. exists line. split; [by right|done].
Qed.

(** Every include target comes from a directive of the quoted form. *)
Lemma _find_includes_quoted fs filename t :
  t ∈ _find_includes py3 fs filename →
  ∃ line, line ∈ file_lines fs filename ∧ quoted_form py3 line = true.
Proof.
  unfold _find_includes. destruct (isfile fs filename); simpl; [|set_solver].
  intros [?|?]%foldl_scan_line_elem; [set_solver|done].
Qed.

Lemma quoted_not_angle line :
  quoted_form py3 line = true → angle_form py3 line = false.
Proof.
  unfold quoted_form, angle_form.
  destruct (is_directive py3 line); [|done]. simpl.
  destruct (directive_argument py3 line) as [|c t]; [done|]. simpl.
  unfold ascii_eqb. case_bool_decide as H1; [|done]. intros _.
  rewrite andb_true_r. by destruct H1.
Qed.
End IncludeRe.

(** ** The closure loop *)

Section Closure.
Variables (py3 : bool) (fs : filesys) (basepaths : list string).

Abbreviation step := (loop_step py3 fs basepaths).

Lemma elem_of_queue_includes includes todo dn x :
  x ∈ queue_includes fs basepaths includes todo dn ↔
    x ∈ todo
    ∨ ((x ∉ dn)
       ∧ (∃ i, i ∈ includes ∧ _makefullpath fs basepaths i = Some x)).
Proof.
  unfold queue_includes.
  apply (set_fold_ind_L (λ r (X : gset string),
    (x ∈ r ↔ (x ∈ todo
              ∨ ((x ∉ dn)
                 ∧ (∃ i, i ∈ X ∧ _makefullpath fs basepaths i = Some x)))))).
  - set_solver.
  - intros i X r Hi IH.
    destruct (_makefullpath fs basepaths i) as [j|] eqn:Hj.
    + destruct (bool_decide (j ∉ r) && bool_decide (j ∉ dn)) eqn:Hb.
      * apply andb_true_iff in Hb as [?%bool_decide_eq_true ?%bool_decide_eq_true].
        rewrite elem_of_union, elem_of_singleton, IH. split.
        -- intros [->|[?|(? & i' & ? & ?)]]; [right|by left|right].
           ++ split; [done|]. exists i. set_solver.
           ++ split; [done|]. exists i'. set_solver.
        -- intros [?|(? & i' & [->%elem_of_singleton|?]%elem_of_union & ?)];
             [by right; left|left; congruence|].
           right; right. eauto.
      * rewrite IH. split.
        -- intros [?|(? & i' & ? & ?)]; [by left|right].
           split; [done|]. exists i'. set_solver.
        -- intros [?|(Hx & i' & [->%elem_of_singleton|?]%elem_of_union & Hi')];
             [by left| |by right; eauto].
           simplify_eq. apply andb_false_iff in Hb as [Hb|Hb];
             apply bool_decide_eq_false in Hb.
           ++ apply dec_stable in Hb. by apply IH in Hb.
           ++ done.
    + rewrite IH. split.
      * intros [?|(? & i' & ? & ?)]; [by left|right].
        split; [done|]. exists i'. set_solver.
      * intros [?|(Hx & i' & [->%elem_of_singleton|?]%elem_of_union & Hi')];
          [by left|congruence|by right; eauto].
Qed.

Lemma _makefullpath_Some i j :
  _makefullpath fs basepaths i = Some j →
  ∃ path, path ∈ basepaths ∧ j = path +:+ "/" +:+ i.
Proof.
  induction basepaths as [|p bp IH]; simpl; [done|].
  destruct (isfile fs (p +:+ "/" +:+ i)).
  - intros [= <-]. exists p. split; [left|done].
  - intros Hj. apply IH in Hj as (path & ? & ->).
    exists path. split; [by right|done].
Qed.

Lemma _find_includes_all filename i :
  i ∈ _find_includes py3 fs filename → i ∈ all_includes py3 fs.
Proof.
  unfold _find_includes, isfile, file_lines, fs_node, all_includes.
  destruct (fs_lookup fs filename) as [k|]; simpl; [|set_solver].
  destruct (fs_nodes fs !! k) as [[content|entries]|] eqn:Hk; simpl;
    [|set_solver..].
  intros Hi. apply elem_of_union_list.
  exists (node_includes py3 (File content)). split; [|done].
  apply list_elem_of_fmap. exists (File content). split; [done|].
  apply list_elem_of_fmap. exists (k, File content). split; [done|].
  by apply elem_of_map_to_list.
Qed.

Section Seed.
Variable filename : string.

Abbreviation U := (universe py3 fs basepaths filename).
Abbreviation inv := (loop_inv py3 fs basepaths filename).

Lemma queued_in_universe progress i j :
  i ∈ _find_includes py3 fs progress →
  _makefullpath fs basepaths i = Some j → j ∈ U.
Proof.
  intros Hi Hj. apply _find_includes_all in Hi.
  apply _makefullpath_Some in Hj as (path & Hp & ->).
  unfold universe. apply elem_of_union_r, elem_of_list_to_set.
  apply list_elem_of_bind. exists path. split; [|done].
  apply list_elem_of_fmap. exists i. split; [done|]. by apply elem_of_elements.
Qed.

Lemma loop_inv_init : inv (loop_init filename).
Proof. unfold loop_inv, loop_init, universe. simpl. set_solver. Qed.

Lemma loop_inv_step st st' :
  inv st → step st st' →
  inv st' ∧ size (U ∖ st_done st') < size (U ∖ st_done st).
Proof.
  unfold loop_inv.
  pose proof queued_in_universe as Hq. revert Hq.
  generalize (universe py3 fs basepaths filename) as V.
  intros V Hq Hinv Hstep. destruct Hstep as [st progress Hp].
  destruct Hinv as [Hsub Hdisj]. split; [split|]; simpl.
  - intros x [Hx|Hx]%elem_of_union; [|set_solver].
    apply elem_of_queue_includes in Hx as [?|(_ & i & ? & ?)]; [set_solver|].
    by eapply Hq.
  - intros x Hx Hx'.
    apply elem_of_queue_includes in Hx as [?|(? & _)]; set_solver.
  - apply subset_size. split; [set_solver|].
    intros Hs. specialize (Hs progress). set_solver.
Qed.

(** Every run of the loop comes to an end. *)
Lemma loop_sn st : inv st → sn step st.
Proof.
  remember (size (U ∖ st_done st)) as n eqn:Hn.
  revert st Hn. induction (lt_wf n) as [n _ IH]. intros st -> Hinv.
  constructor. intros st' Hstep. unfold flip in Hstep.
  destruct (loop_inv_step _ _ Hinv Hstep) as [Hinv' Hlt].
  by eapply IH.
Qed.

(** A run can always be carried on until [todo] is empty. *)
Lemma loop_reaches_end st :
  sn step st → ∃ st', rtc step st st' ∧ st_todo st' = ∅.
Proof.
  induction 1 as [st _ IH].
  destruct (decide (st_todo st = ∅)) as [?|Hne]; [by exists st|].
  apply set_choose_L in Hne as [progress Hp].
  destruct (IH (loop_body py3 fs basepaths progress st)) as (st' & ? & ?).
  { by constructor. }
  exists st'. split; [|done]. eapply rtc_l; [|done]. by constructor.
Qed.

Lemma loop_keeps st st' x :
  rtc step st st' →
  x ∈ st_todo st ∪ st_done st → x ∈ st_todo st' ∪ st_done st'.
Proof.
  induction 1 as [|st1 st2 st3 [st0 progress Hp] _ IH]; [done|].
  intros Hx. apply IH. simpl.
  destruct (decide (x = progress)) as [->|?]; [set_solver|].
  apply elem_of_union in Hx as [?|?]; [|set_solver].
  apply elem_of_union_l, elem_of_queue_includes. left. set_solver.
Qed.

(** The run with the choice of [elements] is one of the runs. *)
Lemma run_returns st :
  sn step st →
  ∃ fuel st', rtc step st st' ∧ st_todo st' = ∅
    ∧ ∀ n, fuel ≤ n →
        _find_all_includes_run n py3 fs basepaths st = Some (st_done st').
Proof.
  induction 1 as [st _ IH].
  destruct (elements (st_todo st)) as [|progress l] eqn:He.
  - exists 1, st. split_and!; [done|by apply elements_empty_inv in He;
      apply leibniz_equiv|].
    intros [|n] ?; [lia|]. simpl. by rewrite He.
  - assert (progress ∈ st_todo st) as Hp.
    { apply elem_of_elements. rewrite He. left. }
    destruct (IH (loop_body py3 fs basepaths progress st))
      as (fuel & st' & Hrtc & Hend & Hrun).
    { by constructor. }
    exists (S fuel), st'. split_and!; [|done|].
    + eapply rtc_l; [|done]. by constructor.
    + intros [|n] ?; [lia|]. simpl. rewrite He. apply Hrun. lia.
Qed.
End Seed.
End Closure.

Section Returns.
Variables (py3 : bool) (fs : filesys) (basepaths : list string).
Variable filename : string.

Abbreviation step' := (loop_step py3 fs basepaths).

Lemma returns_exists : ∃ result, returns py3 fs basepaths filename result.
Proof.
  destruct (loop_reaches_end py3 fs basepaths (loop_init filename))
    as (st & ? & ?).
  { eapply loop_sn, loop_inv_init. }
  exists (st_done st), st. done.
Qed.

Lemma returns_seed result :
  returns py3 fs basepaths filename result → filename ∈ result.
Proof.
  intros (st & Hrtc & Hend & <-).
  eapply (loop_keeps _ _ _ _ _ filename) in Hrtc; [|set_solver].
  set_solver.
Qed.

Lemma loop_end_stuck st st' :
  st_todo st = ∅ → rtc step' st st' → st' = st.
Proof.
  intros Hend Hrtc. destruct Hrtc as [|? ? ? [st0 progress Hp]]; [done|].
  set_solver.
Qed.

Lemma returns_missing_seed result :
  isfile fs filename = false →
  returns py3 fs basepaths filename result → result = {[filename]}.
Proof.
  intros Hf (st & Hrtc & Hend & <-).
  remember (loop_init filename) as st0 eqn:E.
  destruct Hrtc as [|? st1 ? [st0 progress Hp] Hrtc]; subst.
  { simpl in Hend. set_solver. }
  simpl in Hp. apply elem_of_singleton in Hp as ->.
  apply loop_end_stuck in Hrtc as ->; simpl.
  - set_solver.
  - unfold _find_includes. rewrite Hf. simpl.
    unfold queue_includes. rewrite set_fold_empty. set_solver.
Qed.

Lemma run_returns_seed :
  ∃ fuel result, ∀ n, fuel ≤ n →
    _find_all_includes n py3 fs basepaths filename = Some result
    ∧ returns py3 fs basepaths filename result.
Proof.
  destruct (run_returns py3 fs basepaths (loop_init filename))
    as (fuel & st & Hrtc & Hend & Hrun).
  { eapply loop_sn, loop_inv_init. }
  exists fuel, (st_done st). intros n Hn. split; [by apply Hrun|].
  by exists st.
Qed.
End Returns.

(** *** Two files that include each other *)

Section Cycle.
Variables (py3 : bool) (fs : filesys) (basepaths : list string).
Variables a b ia ib : string.
Hypothesis a_includes : _find_includes py3 fs a = {[ib]}.
Hypothesis ib_resolves : _makefullpath fs basepaths ib = Some b.
Hypothesis b_includes : _find_includes py3 fs b = {[ia]}.
Hypothesis ia_resolves : _makefullpath fs basepaths ia = Some a.

Lemma cycle_reached st :
  rtc (loop_step py3 fs basepaths) (loop_init a) st → cycle_states a b st.
Proof.
  revert st. apply rtc_ind_r; [by left|].
  intros st st' _ Hstep Hr. destruct Hstep as [st progress Hp].
  destruct Hr as [->|[[Hd Ht]|[Hd Ht]]]; simpl in *.
  - apply elem_of_singleton in Hp as ->. right; left. simpl.
    split; [set_solver|]. apply set_eq. intros x.
    rewrite elem_of_queue_includes, a_includes.
    split.
    + intros [?|(? & i & ->%elem_of_singleton & ?)]; [set_solver|].
      simplify_eq. set_solver.
    + intros [->%elem_of_singleton ?]%elem_of_difference. right.
      split; [set_solver|]. exists ib. set_solver.
  - rewrite Ht in Hp.
    apply elem_of_difference in Hp as [->%elem_of_singleton Hne].
    right; right. simpl. rewrite Hd, Ht.
    split; [set_solver|]. apply set_eq. intros x.
    rewrite elem_of_queue_includes, b_includes.
    split; [|set_solver].
    intros [?|(? & i & ->%elem_of_singleton & ?)]; [set_solver|].
    simplify_eq. set_solver.
  - set_solver.
Qed.

Lemma cycle_returns result :
  returns py3 fs basepaths a result → result = {[a; b]}.
Proof.
  intros (st & Hrtc & Hend & <-).
  destruct (cycle_reached st Hrtc) as [->|[[Hd Ht]|[Hd _]]]; simpl in *.
  - set_solver.
  - rewrite Hd. rewrite Ht in Hend.
    destruct (decide (b = a)) as [->|Hne]; [set_solver|].
    assert (b ∈ ({[b]} ∖ {[a]} : gset string)) as Hb
      by (apply elem_of_difference; split; set_solver).
    rewrite Hend in Hb. set_solver.
  - done.
Qed.
End Cycle.

(** ** Paths *)

Lemma app_empty_r s : s +:+ "" = s.
Proof. induction s as [|c s IH]; [done|]. by rewrite app_cons, IH. Qed.

Lemma app_assoc' s t u : (s +:+ t) +:+ u = s +:+ t +:+ u.
Proof. induction s as [|c s IH]; [done|]. by rewrite !app_cons, IH. Qed.

Lemma str_length_app s t :
  String.length (s +:+ t) = String.length s + String.length t.
Proof. induction s as [|c s IH]; [done|]. rewrite app_cons. simpl. by rewrite IH. Qed.

Lemma split_char_cons sep c s :
  split_char sep None (String c s) =
    if ascii_eqb c sep then "" :: split_char sep None s
    else match split_char sep None s with
         | w :: ws => String c w :: ws
         | [] => [String c ""]
         end.
Proof. done. Qed.

Lemma split_char_no_slash x :
  has_slash x = false → split_char slash None x = [x].
Proof.
  induction x as [|c x IH]; [done|]. simpl has_slash.
  intros [Hc Hx]%orb_false_elim. rewrite split_char_cons.
  unfold is_slash in Hc. by rewrite Hc, IH.
Qed.

Lemma split_char_app_slash x rest :
  has_slash x = false →
  split_char slash None (x +:+ String slash rest)
  = x :: split_char slash None rest.
Proof.
  induction x as [|c x IH].
  - intros _. rewrite app_empty_l, split_char_cons.
    unfold ascii_eqb. by rewrite bool_decide_eq_true_2.
  - simpl has_slash. intros [Hc Hx]%orb_false_elim.
    rewrite app_cons, split_char_cons. unfold is_slash in Hc.
    by rewrite Hc, IH.
Qed.

Lemma plain_spec c :
  plain c = true ↔ c ≠ "" ∧ c ≠ "." ∧ c ≠ ".." ∧ has_slash c = false.
Proof.
  unfold plain. rewrite !andb_true_iff, !negb_true_iff, !bool_decide_eq_false.
  naive_solver.
Qed.

Lemma join_cons x y l : join "/" (x :: y :: l) = x +:+ "/" +:+ join "/" (y :: l).
Proof. done. Qed.

Lemma split_char_join cs :
  cs ≠ [] → forallb plain cs = true →
  split_char slash None (join "/" cs) = cs.
Proof.
  induction cs as [|x [|y cs] IH]; [done| |]; intros _ Hp.
  - simpl in *. apply andb_true_iff in Hp as [Hx _].
    apply plain_spec in Hx as (_ & _ & _ & Hx). by apply split_char_no_slash.
  - rewrite join_cons. cbn [forallb] in Hp.
    apply andb_true_iff in Hp as [Hx Hp].
    apply plain_spec in Hx as (_ & _ & _ & Hx).
    change ("/" +:+ join "/" (y :: cs)) with (String slash (join "/" (y :: cs))).
    rewrite split_char_app_slash by done. f_equal. by apply IH.
Qed.

Lemma normpath_step_plain n acc c :
  plain c = true → normpath_step n acc c = acc ++ [c].
Proof.
  intros (H1 & H2 & H3 & _)%plain_spec. unfold normpath_step.
  rewrite (bool_decide_eq_false_2 (c = "")), (bool_decide_eq_false_2 (c = ".")),
    (bool_decide_eq_false_2 (c = "..")) by done.
  done.
Qed.

Lemma foldl_normpath_step n acc cs :
  forallb plain cs = true → foldl (normpath_step n) acc cs = acc ++ cs.
Proof.
  revert acc. induction cs as [|c cs IH]; intros acc; simpl.
  - by rewrite app_nil_r.
  - intros [Hc Hcs]%andb_true_iff.
    by rewrite normpath_step_plain, IH, <-app_assoc.
Qed.

Lemma plain_head c : plain c = true → ∃ a s, c = String a s ∧ is_slash a = false.
Proof.
  intros (H1 & _ & _ & H4)%plain_spec. destruct c as [|a s]; [done|].
  exists a, s. split; [done|]. simpl in H4. by apply orb_false_elim in H4 as [? _].
Qed.

Lemma join_head c cs :
  plain c = true → ∃ a s, join "/" (c :: cs) = String a s ∧ is_slash a = false.
Proof.
  intros (a & s & -> & Ha)%plain_head. destruct cs as [|y cs].
  - by exists a, s.
  - rewrite join_cons, app_cons. eauto.
Qed.

(** [normpath] leaves a normalised absolute path as it is. *)
Lemma normpath_abs_path cs :
  forallb plain cs = true → normpath (abs_path cs) = abs_path cs.
Proof.
  intros Hp. unfold normpath, abs_path.
  change ("/" +:+ join "/" cs) with (String slash (join "/" cs)).
  rewrite bool_decide_eq_false_2 by done.
  assert (startswith "//" (String slash (join "/" cs)) = false) as Hss.
  { destruct cs as [|c cs]; [done|]. cbn [forallb] in Hp.
    apply andb_true_iff in Hp as [Hc _].
    destruct (join_head c cs Hc) as (a & s & -> & Ha).
    simpl. unfold is_slash, ascii_eqb in Ha.
    unfold ascii_eqb, slash.
    rewrite (bool_decide_ext (_ = a) (a = slash)) by (unfold slash; naive_solver).
    by rewrite Ha. }
  change (startswith "/" (String slash (join "/" cs))) with true.
  cbn match. rewrite Hss. cbn [andb].
  assert (ascii_eqb slash slash = true) as Hsl by done.
  rewrite split_char_cons, Hsl.
  destruct cs as [|c cs]; [done|].
  rewrite split_char_join by done.
  change (foldl (normpath_step 1) [] ("" :: c :: cs))
    with (foldl (normpath_step 1) (normpath_step 1 [] "") (c :: cs)).
  assert (normpath_step 1 [] "" = []) as -> by done.
  rewrite foldl_normpath_step by done. rewrite app_nil_l.
  change ("/" +:+ join "/" (c :: cs)) with (String slash (join "/" (c :: cs))).
  by rewrite bool_decide_eq_false_2.
Qed.

Lemma up_to_last_slash_none s :
  has_slash s = false → up_to_last_slash s = "".
Proof. destruct s as [|c s]; [done|]. simpl. by intros ->. Qed.

Lemma has_slash_app s t : has_slash (s +:+ t) = has_slash s || has_slash t.
Proof.
  induction s as [|c s IH]; [done|]. rewrite app_cons. simpl.
  by rewrite IH, orb_assoc.
Qed.

Lemma has_slash_mid s c : has_slash (s +:+ String slash c) = true.
Proof. rewrite has_slash_app. simpl. by rewrite orb_true_r. Qed.

Lemma up_to_last_slash_app s c :
  has_slash c = false →
  up_to_last_slash (s +:+ String slash c) = s +:+ String slash "".
Proof.
  intros Hc. induction s as [|a s IH].
  - rewrite !app_empty_l. simpl. by rewrite up_to_last_slash_none.
  - rewrite !app_cons.
    change (up_to_last_slash (String a (s +:+ String slash c)))
      with (if is_slash a || has_slash (s +:+ String slash c)
            then String a (up_to_last_slash (s +:+ String slash c)) else "").
    by rewrite has_slash_mid, orb_true_r, IH.
Qed.

Lemma ends_slash_app s t : t ≠ "" → ends_slash (s +:+ t) = ends_slash t.
Proof.
  intros Ht. induction s as [|a s IH]; [done|]. rewrite app_cons.
  cbn [ends_slash]. destruct (s +:+ t) eqn:E; [|done].
  destruct s, t; done.
Qed.

Lemma ends_slash_plain c : plain c = true → ends_slash c = false.
Proof.
  intros (H1 & _ & _ & H4)%plain_spec. clear H1.
  induction c as [|a [|b c] IH]; [done| |].
  - simpl in *. by apply orb_false_elim in H4 as [? _].
  - change (ends_slash (String a (String b c))) with (ends_slash (String b c)).
    apply IH. simpl in H4. by apply orb_false_elim in H4 as [_ ?].
Qed.

Lemma rstrip_slash_app s :
  s ≠ "" → ends_slash s = false →
  rstrip_slash (s +:+ String slash "") = s
  ∧ str_all is_slash (s +:+ String slash "") = false.
Proof.
  induction s as [|a [|b s] IH]; [done| |]; intros _ He.
  - simpl in He. rewrite app_cons, app_empty_l. simpl.
    by rewrite He.
  - destruct IH as [IH1 IH2]; [done|done|].
    rewrite app_cons. cbn [rstrip_slash str_all].
    rewrite IH1, IH2, andb_false_r. done.
Qed.

(** ** The walk of [find_tags_root] *)

Lemma join_snoc cs c :
  cs ≠ [] → join "/" (cs ++ [c]) = join "/" cs +:+ "/" +:+ c.
Proof.
  induction cs as [|x [|y cs] IH]; [done|done|]. intros _.
  change ((x :: y :: cs) ++ [c]) with (x :: y :: (cs ++ [c])).
  rewrite !join_cons. change (y :: cs ++ [c]) with ((y :: cs) ++ [c]).
  rewrite IH by done. by rewrite !app_assoc'.
Qed.

Lemma forallb_snoc {A} (f : A → bool) l x :
  forallb f (l ++ [x]) = forallb f l && f x.
Proof. rewrite forallb_app. simpl. by rewrite andb_true_r. Qed.

Lemma ends_slash_join cs :
  cs ≠ [] → forallb plain cs = true → ends_slash (join "/" cs) = false.
Proof.
  induction cs as [|c cs _] using rev_ind; [done|]. intros _.
  rewrite forallb_snoc. intros [_ Hc]%andb_true_iff.
  destruct cs as [|x cs]; [by apply ends_slash_plain|].
  rewrite join_snoc by done.
  apply plain_spec in Hc as Hc'. destruct Hc' as (Hne & _).
  rewrite <-app_assoc', ends_slash_app by done.
  by apply ends_slash_plain.
Qed.

Lemma dirname_abs_path cs c :
  forallb plain (cs ++ [c]) = true →
  dirname (abs_path (cs ++ [c])) = abs_path cs.
Proof.
  rewrite forallb_snoc. intros [Hcs Hc]%andb_true_iff.
  apply plain_spec in Hc as Hc'. destruct Hc' as (_ & _ & _ & Hns).
  unfold dirname, abs_path. destruct cs as [|x cs].
  - change ("/" +:+ join "/" ([] ++ [c])) with ("" +:+ String slash c).
    by rewrite up_to_last_slash_app.
  - rewrite join_snoc by done.
    change ("/" +:+ join "/" (x :: cs) +:+ "/" +:+ c)
      with (("/" +:+ join "/" (x :: cs)) +:+ String slash c).
    rewrite up_to_last_slash_app by done.
    destruct (rstrip_slash_app ("/" +:+ join "/" (x :: cs))) as [-> ->].
    + done.
    + change ("/" +:+ join "/" (x :: cs)) with ("/" +:+ join "/" (x :: cs)).
      rewrite ends_slash_app; [by apply ends_slash_join|].
      destruct (join_head x cs) as (a & s & -> & _); [|done].
      cbn [forallb] in Hcs. by apply andb_true_iff in Hcs as [? _].
    + rewrite bool_decide_eq_false_2; [done|].
      by rewrite app_assoc'.
Qed.

Lemma length_abs_path_snoc cs c :
  plain c = true →
  String.length (abs_path cs) < String.length (abs_path (cs ++ [c])).
Proof.
  intros (Hne & _)%plain_spec. unfold abs_path. rewrite !str_length_app.
  destruct cs as [|x cs].
  - simpl. destruct c; [done|simpl; lia].
  - rewrite join_snoc by done. rewrite !str_length_app. simpl. lia.
Qed.

Lemma length_dirname_abs_path cs :
  forallb plain cs = true →
  String.length (dirname (abs_path cs)) ≤ String.length (abs_path cs).
Proof.
  destruct cs as [|c cs _] using rev_ind; [done|]. intros Hp.
  rewrite dirname_abs_path by done.
  rewrite forallb_snoc in Hp. apply andb_true_iff in Hp as [_ Hc].
  pose proof (length_abs_path_snoc cs c Hc). lia.
Qed.

Lemma parent_not_previous cs previous :
  forallb plain cs = true → came_from cs previous →
  Some (dirname (abs_path cs)) ≠ previous.
Proof.
  intros Hp [->|(c & Hc & ->)]; [done|]. intros [= Heq].
  pose proof (length_dirname_abs_path cs Hp).
  pose proof (length_abs_path_snoc cs c Hc). rewrite Heq in *. lia.
Qed.

Lemma find_tags_root_S fuel fs current previous :
  find_tags_root (S fuel) fs current previous =
    if negb (isdir fs (normpath current)) then Some None
    else if bool_decide (Some (dirname (normpath current)) = previous)
    then Some None
    else if has_marker fs (normpath current) then Some (Some (normpath current))
    else find_tags_root fuel fs (dirname (normpath current))
           (Some (normpath current)).
Proof. done. Qed.

Lemma below_snoc ds cs c :
  below ds (cs ++ [c]) = below ds cs ++ [abs_path (ds ++ cs ++ [c])].
Proof.
  unfold below. rewrite length_app. simpl.
  rewrite Nat.add_1_r, seq_S, fmap_app. simpl. f_equal.
  - apply list_fmap_ext. intros i k Hk.
    apply lookup_seq in Hk as [-> ?]. by rewrite take_app_le by lia.
  - by rewrite take_ge by (rewrite length_app; simpl; lia).
Qed.

Section Walk.
Variable fs : filesys.

(** Upwards from [ds ++ cs] to the first marker, which [ds] holds. *)
Lemma find_tags_root_walk ds cs previous fuel :
  forallb plain (ds ++ cs) = true →
  forallb (isdir fs) (abs_path ds :: below ds cs) = true →
  has_marker fs (abs_path ds) = true →
  forallb (λ d, negb (has_marker fs d)) (below ds cs) = true →
  came_from (ds ++ cs) previous →
  length cs < fuel →
  find_tags_root fuel fs (abs_path (ds ++ cs)) previous
  = Some (Some (abs_path ds)).
Proof.
  revert previous fuel.
  induction cs as [|c cs IH] using rev_ind;
    intros previous fuel Hp Hd Hm Hn Hprev Hfuel;
    (destruct fuel as [|fuel]; [simpl in Hfuel; lia|]);
    rewrite find_tags_root_S, normpath_abs_path by done.
  - rewrite app_nil_r in *. simpl in Hd.
    apply andb_true_iff in Hd as [-> _]. cbn [negb].
    rewrite bool_decide_eq_false_2 by by apply parent_not_previous.
    by rewrite Hm.
  - rewrite below_snoc in Hd, Hn. rewrite app_assoc in *.
    change (abs_path ds :: below ds cs ++ [abs_path ((ds ++ cs) ++ [c])])
      with ((abs_path ds :: below ds cs) ++ [abs_path ((ds ++ cs) ++ [c])])
      in Hd.
    rewrite forallb_snoc in Hd, Hn.
    apply andb_true_iff in Hd as [Hd ->].
    apply andb_true_iff in Hn as [Hn ->%negb_true_iff]. cbn [negb].
    rewrite bool_decide_eq_false_2 by by apply parent_not_previous.
    rewrite dirname_abs_path by done.
    rewrite forallb_snoc in Hp. apply andb_true_iff in Hp as [Hp Hc].
    apply IH; try done.
    + right. by exists c.
    + rewrite length_app in Hfuel. simpl in Hfuel. lia.
Qed.

(** Upwards from [cs] to the root, no marker on the way. *)
Lemma find_tags_root_absolute_not_found cs previous fuel :
  forallb plain cs = true →
  forallb (λ d, negb (has_marker fs d)) (abs_path [] :: below [] cs) = true →
  came_from cs previous →
  length cs + 1 < fuel →
  find_tags_root fuel fs (abs_path cs) previous = Some None.
Proof.
  revert previous fuel.
  induction cs as [|c cs IH] using rev_ind;
    intros previous fuel Hp Hn Hprev Hfuel;
    (destruct fuel as [|fuel]; [lia|]);
    rewrite find_tags_root_S, normpath_abs_path by done;
    (destruct (isdir fs _) eqn:Hdir; [cbn [negb]|done]);
    rewrite bool_decide_eq_false_2 by by apply parent_not_previous.
  - simpl in Hn. apply andb_true_iff in Hn as [->%negb_true_iff _].
    destruct fuel as [|fuel]; [simpl in Hfuel; lia|].
    rewrite find_tags_root_S.
    change (normpath (dirname (abs_path []))) with (abs_path []).
    rewrite Hdir. cbn [negb]. by rewrite bool_decide_eq_true_2.
  - rewrite below_snoc in Hn. simpl app in Hn.
    change (abs_path [] :: below [] cs ++ [abs_path (cs ++ [c])])
      with ((abs_path [] :: below [] cs) ++ [abs_path (cs ++ [c])]) in Hn.
    rewrite forallb_snoc in Hn.
    apply andb_true_iff in Hn as [Hn ->%negb_true_iff].
    rewrite dirname_abs_path by done.
    rewrite forallb_snoc in Hp. apply andb_true_iff in Hp as [Hp Hc].
    apply IH; try done.
    + right. by exists c.
    + rewrite length_app in Hfuel. simpl in Hfuel. lia.
Qed.

(** From a relative start the walk settles on [.], whose parent is the
    empty path, which [normpath] turns into [.] again. *)
Lemma find_tags_root_dot_loops fuel previous :
  isdir fs "." = true → has_marker fs "." = false →
  previous ≠ Some "" →
  find_tags_root fuel fs "" previous = None.
Proof.
  intros Hdir Hm. revert previous.
  induction fuel as [|fuel IH]; intros previous Hprev; [done|].
  rewrite find_tags_root_S.
  change (normpath "") with ".". change (dirname ".") with "".
  rewrite Hdir, Hm. cbn [negb].
  rewrite bool_decide_eq_false_2 by done. by apply IH.
Qed.
End Walk.

(** ** The loop computes what the seed reaches *)

Section Reach.
Variables (py3 : bool) (fs : filesys) (basepaths : list string).
Variable filename : string.

Abbreviation edge := (includes_edge py3 fs basepaths).
Abbreviation cinv := (closure_inv py3 fs basepaths filename).

Lemma closure_inv_init : cinv (loop_init filename).
Proof.
  split_and!; simpl.
  - intros x Hx. assert (x = filename) as -> by set_solver. done.
  - set_solver.
  - set_solver.
Qed.

Lemma closure_inv_step st st' :
  cinv st → loop_step py3 fs basepaths st st' → cinv st'.
Proof.
  intros Hinv Hstep. destruct Hstep as [st progress Hp].
  destruct Hinv as (Hreach & Hseed & Hclosed).
  assert (∀ x, x ∈ st_todo (loop_body py3 fs basepaths progress st) ↔
               (x ∈ st_todo st ∧ x ≠ progress)
               ∨ ((x ∉ ({[progress]} ∪ st_done st : gset string))
                  ∧ edge progress x)) as Htodo.
  { intros x. simpl. rewrite elem_of_queue_includes.
    rewrite elem_of_difference, not_elem_of_singleton. done. }
  split_and!.
  - intros x [Hx|Hx]%elem_of_union.
    + apply Htodo in Hx as [[Hx _]|[_ Hx]].
      * apply Hreach. set_solver.
      * eapply rtc_r; [|done]. apply Hreach. set_solver.
    + simpl in Hx. apply elem_of_union in Hx as [->%elem_of_singleton|Hx];
        apply Hreach; set_solver.
  - destruct (decide (filename = progress)) as [->|Hne].
    + simpl. set_solver.
    + apply elem_of_union in Hseed as [Hs|Hs].
      * apply elem_of_union_l, Htodo. by left.
      * simpl. set_solver.
  - intros x y Hx Hxy.
    destruct (decide (y ∈ ({[progress]} ∪ st_done st : gset string)))
      as [Hy|Hy]; [by apply elem_of_union_r|].
    apply elem_of_union_l, Htodo. simpl in Hx.
    apply elem_of_union in Hx as [->%elem_of_singleton|Hx]; [by right|].
    left. pose proof (Hclosed x y Hx Hxy) as Hy'. set_solver.
Qed.

Lemma closure_inv_rtc st :
  rtc (loop_step py3 fs basepaths) (loop_init filename) st → cinv st.
Proof.
  revert st. apply rtc_ind_r; [apply closure_inv_init|].
  intros st st' _ Hstep Hinv. by eapply closure_inv_step.
Qed.

(** When the loop is left, [done] is what the seed reaches. *)
Lemma closure_inv_end st x :
  cinv st → st_todo st = ∅ → x ∈ st_done st ↔ rtc edge filename x.
Proof.
  intros (Hreach & Hseed & Hclosed) Hend. rewrite Hend in *. split.
  - intros Hx. apply Hreach. set_solver.
  - assert (filename ∈ st_done st) as Hs by set_solver.
    assert (∀ a, rtc edge a x → a ∈ st_done st → x ∈ st_done st) as Hall;
      [|intros Hrtc; by eapply Hall].
    intros a Hrtc. induction Hrtc as [|a b c Hab _ IH]; [done|].
    intros Ha. apply IH. pose proof (Hclosed a b Ha Hab) as Hb.
    by apply elem_of_union in Hb as [?%elem_of_empty|?].
Qed.

Lemma returns_reach result x :
  returns py3 fs basepaths filename result →
  x ∈ result ↔ rtc edge filename x.
Proof.
  intros (st & Hrtc & Hend & <-).
  by apply closure_inv_end; [apply closure_inv_rtc|].
Qed.

Lemma returns_unique r1 r2 :
  returns py3 fs basepaths filename r1 →
  returns py3 fs basepaths filename r2 → r1 = r2.
Proof.
  intros H1 H2. apply set_eq. intros x.
  by rewrite (returns_reach r1), (returns_reach r2).
Qed.
End Reach.

(** A result of the run with the choice of [elements] is one the loop can
    return. *)
Lemma run_sound py3 fs basepaths n st result :
  _find_all_includes_run n py3 fs basepaths st = Some result →
  ∃ st', rtc (loop_step py3 fs basepaths) st st'
         ∧ st_todo st' = ∅ ∧ st_done st' = result.
Proof.
  revert st. induction n as [|n IH]; intros st; [done|]. simpl.
  destruct (elements (st_todo st)) as [|progress l] eqn:He.
  - intros [= <-]. exists st. split_and!; [done| |done].
    by apply elements_empty_inv, leibniz_equiv in He.
  - intros (st' & Hrtc & ? & ?)%IH. exists st'. split_and!; [|done..].
    eapply rtc_l; [|done]. constructor.
    apply elem_of_elements. rewrite He. left.
Qed.

(** * The claims *)

(** ** C2: the record of one line *)

(** C2, as stated, fails: for the line [sym 10 path.c sig text] the group
    of the line number is the text [10], as the tool printed it, and not an
    integer. *)
Lemma C2_line_number_is_text :
  ∃ r, match_lines true ["sym 10 path.c sig text"] = [r]
       ∧ r !! "linenum" = Some (VStr "10")
       ∧ ¬ ∃ n : Z, r !! "linenum" = Some (VInt n).
Proof.
  exists (tag_record "sym" "10" "path.c" "sig text").
  split; [by_compute|].
  assert (tag_record "sym" "10" "path.c" "sig text" !! "linenum"
          = Some (VStr "10")) as -> by by_compute.
  split; [done|]. by intros [n [=]].
Qed.

(** C2, amended: the line [sym 10 path.c sig text] yields the record with
    symbol [sym], line number the text [10], path [path.c] and signature
    [sig text]; written back with one blank between the groups it is the
    same line, and parsing it again yields the same record. *)
Theorem C2_parse_and_reparse (py3 : bool) :
  match_lines py3 ["sym 10 path.c sig text"]
    = [tag_record "sym" "10" "path.c" "sig text"]
  ∧ serialize "sym" "10" "path.c" "sig text" = "sym 10 path.c sig text"
  ∧ match_lines py3 [serialize "sym" "10" "path.c" "sig text"]
    = [tag_record "sym" "10" "path.c" "sig text"].
Proof. destruct py3; split_and!; by_compute. Qed.

(** ** C6: malformed lines in a batch *)

(** C6, as stated, fails: [sym 10 path.c ] has three fields, fewer than
    four, and still produces a record, with an empty signature. *)
Lemma C6_three_fields_and_a_blank :
  length (fields true "sym 10 path.c ") = 3
  ∧ match_lines true ["sym 10 path.c "] = [tag_record "sym" "10" "path.c" ""].
Proof. split; by_compute. Qed.

(** C6, amended: in every batch each line contributes on its own, in the
    order of the output: nothing when it has fewer than three fields, or
    three fields and no white space after the third; and its record (the
    first three fields and the rest of the line) when it has four fields or
    more, or three fields followed by white space. *)
Theorem C6_records_by_fields (py3 : bool) (before after : list string)
    (l : string) :
  match_lines py3 (before ++ l :: after)
    = match_lines py3 before ++ match_lines py3 [l] ++ match_lines py3 after
  ∧ (length (fields py3 l) < 3 → match_lines py3 [l] = [])
  ∧ (length (fields py3 l) = 3 → ends_space py3 l = false →
     match_lines py3 [l] = [])
  ∧ (3 < length (fields py3 l) ∨
     (length (fields py3 l) = 3 ∧ ends_space py3 l = true) →
     ∃ f1 f2 f3 rest,
       fields py3 l = f1 :: f2 :: f3 :: rest
       ∧ match_lines py3 [l]
         = [tag_record f1 f2 f3 (take_while notnl (skip_fields py3 3 l))]).
Proof.
  rewrite match_lines_single, search_line_record. split_and!.
  - change (l :: after) with ([l] ++ after).
    by rewrite !match_lines_app, match_lines_single, search_line_record.
  - unfold line_record.
    destruct (fields py3 l) as [|f1 [|f2 [|f3 rest]]]; simpl; (done || lia).
  - unfold line_record. intros Hlen ->.
    destruct (fields py3 l) as [|f1 [|f2 [|f3 [|f4 rest]]]]; simplify_eq/=.
    done.
  - unfold line_record.
    destruct (fields py3 l) as [|f1 [|f2 [|f3 rest]]];
      simpl; try (intros [?|[? _]]; simplify_eq/=; lia).
    intros H. exists f1, f2, f3, rest. split; [done|].
    destruct H as [H|[_ ->]]; [|by rewrite orb_true_r].
    rewrite bool_decide_eq_true_2; [done|]. destruct rest; [simpl in H; lia|done].
Qed.

(** ** C7: the symbol column *)

(** C7, as stated, fails: an empty line of the output contributes the
    empty string to the result, and a tab does not end the first column. *)
Lemma C7_empty_line_yields_empty_name :
  symbol_column true ("main 1 a.c" +:+ String nl (String nl "f 2 b.c"))
    = ["main"; ""; "f"]
  ∧ first_column ("a" +:+ String tab "b c") = "a" +:+ String tab "b".
Proof. split; reflexivity. Qed.

(** C7, amended: the name taken from a line is its text before the first
    space character, the whole line when it has none; every line of the
    output contributes one name, the empty line the empty name. *)
Theorem C7_first_column (py3 : bool) (out line : string) :
  first_column line = take_while notblank line
  ∧ first_column "" = ""
  ∧ length (symbol_column py3 out) = length (splitlines py3 out).
Proof.
  split_and!; [apply first_column_take_while|done|].
  unfold symbol_column. by rewrite length_fmap.
Qed.

(** ** C1: no open file *)

(** C1, as stated, fails: with no view open the program still runs
    [global -q -f] once. *)
Lemma C1_global_runs_without_files :
  demo_init.1 = Ok demo_tagfile
  ∧ popen_log demo_init.2 = []
  ∧ popen_log (open_files_symbols w_demo demo_tagfile [] demo_init.2).2
    = [(["global"; "-q"; "-f"], {[ "stdout" := VPipe; "env" := VRef 0 ]})].
Proof. split_and!; [done|by_compute..]. Qed.

(** C1, amended: with no view open, [open_files_symbols] calls [Popen]
    exactly once, for the command [global -q -f ] (an empty list of files),
    and returns the first column of each line of the output of that run,
    hence nothing when it prints nothing.  An exception of [Popen], or of
    the decoding of the output under Python 3, is passed on. *)
Theorem C1_open_files_symbols_no_views (w : world) (self : TagFile)
    (σ : state) :
  ∃ args hp,
    popen_log (open_files_symbols w self [] σ).2
      = popen_log σ ++ [(["global"; "-q"; "-f"], args)]
    ∧ (open_files_symbols w self [] σ).1
      = match popen w ["global"; "-q"; "-f"] args hp with
        | inl exn => Raised exn
        | inr proc =>
            let out := p_stdout proc in
            match (if w_py3 w then decode_utf8 w out else Some out) with
            | Some text => Ok (symbol_column (w_py3 w) text)
            | None => Raised "UnicodeDecodeError"
            end
        end
    ∧ symbol_column (w_py3 w) "" = [].
Proof.
  set (args := <["stdout" := VPipe]> ∅
               ∪ default ∅ (heap σ !! default_kwargs (subprocess self))).
  exists args, (<[default_kwargs (subprocess self) := args]> (heap σ)).
  rewrite open_files_symbols_nil, query_run. cbv zeta.
  rewrite argv_of_global_q_f. fold args. done.
Qed.

(** ** C9: the default arguments of the runner *)

(** C9 and the code part: [create] updates the dictionary of
    [default_kwargs] itself.  After [TagFile('/r')] it holds the
    environment only; after one completion query it also holds [stdout],
    and after a rebuild [stderr] and [cwd], for every later call.  The
    environment mapping stays as built. *)
Theorem C9_default_kwargs_mutated :
  let σ0 := demo_init.2 in
  let σ1 := (start_with w_demo demo_tagfile "Exp" σ0).2 in
  let σ2 := (rebuild w_demo demo_tagfile σ1).2 in
  demo_init.1 = Ok demo_tagfile
  ∧ heap σ0 !! 1 = Some {[ "env" := VRef 0 ]}
  ∧ heap σ1 !! 1 = Some {[ "stdout" := VPipe; "env" := VRef 0 ]}
  ∧ heap σ2 !! 1 = Some {[ "stderr" := VPipe; "cwd" := VStr "/r";
                           "stdout" := VPipe; "env" := VRef 0 ]}
  ∧ heap σ1 !! 1 ≠ heap σ0 !! 1
  ∧ heap σ2 !! 0 = heap σ0 !! 0.
Proof.
  cbv zeta. split_and!; [done|by_compute..].
Qed.

(** ** C8: angle-bracket includes *)

(** C8: when every include directive of a file has the angle-bracket form,
    [_find_includes] returns the empty set. *)
Theorem C8_angle_includes_ignored (py3 : bool) (fs : filesys)
    (filename : string) :
  isfile fs filename = true →
  only_angle_includes py3 fs filename = true →
  _find_includes py3 fs filename = ∅.
Proof.
  intros _ Hall. apply set_eq. intros t. split; [|set_solver].
  intros Ht. apply _find_includes_quoted in Ht as (line & Hin & Hq).
  unfold only_angle_includes in Hall. rewrite forallb_forall in Hall.
  apply list_elem_of_In, Hall in Hin.
  rewrite (quoted_not_angle _ _ Hq) in Hin.
  unfold quoted_form in Hq. by destruct (is_directive py3 line).
Qed.

Lemma C8_system_header_only :
  isfile fs_cycle "/r/c.c" = true
  ∧ only_angle_includes true fs_cycle "/r/c.c" = true
  ∧ _find_includes true fs_cycle "/r/c.c" = ∅.
Proof.
  split_and!; [by_compute..|].
  apply (C8_angle_includes_ignored true fs_cycle "/r/c.c"); by_compute.
Defined.

(** ** C3: a cycle of includes *)

(** C3, as stated, fails: [/r/src/a.c] includes [../inc/b.h], which
    includes [../src/a.c], and both are found under the directory of the
    seed.  The loop ends, but paths are compared as they are written: the
    set returned holds three paths, the seed file under two names, and the
    set of the two files is not a result. *)
Lemma C3_seed_under_two_names :
  _find_includes true fs_sisters "/r/src/a.c" = {["../inc/b.h"]}
  ∧ _makefullpath fs_sisters ["/r/src"] "../inc/b.h"
    = Some "/r/src/../inc/b.h"
  ∧ _find_includes true fs_sisters "/r/src/../inc/b.h" = {["../src/a.c"]}
  ∧ _makefullpath fs_sisters ["/r/src"] "../src/a.c"
    = Some "/r/src/../src/a.c"
  ∧ _find_all_includes 10 true fs_sisters ["/r/src"] "/r/src/a.c"
    = Some {["/r/src/a.c"; "/r/src/../inc/b.h"; "/r/src/../src/a.c"]}
  ∧ ¬ returns true fs_sisters ["/r/src"] "/r/src/a.c"
        {["/r/src/a.c"; "/r/src/../inc/b.h"]}.
Proof.
  assert (_find_all_includes 10 true fs_sisters ["/r/src"] "/r/src/a.c"
          = Some {["/r/src/a.c"; "/r/src/../inc/b.h"; "/r/src/../src/a.c"]})
    as Hrun by by_compute.
  split_and!; [by_compute..|done|].
  intros Hr. apply run_sound in Hrun as (st & Hrtc & Hend & Hdone).
  assert (returns true fs_sisters ["/r/src"] "/r/src/a.c"
            {["/r/src/a.c"; "/r/src/../inc/b.h"; "/r/src/../src/a.c"]})
    as Hr' by by exists st.
  pose proof (returns_unique _ _ _ _ _ _ Hr Hr') as Heq.
  revert Heq. by_compute.
Qed.

(** C3, amended: when the seed [a] includes a name that resolves to [b],
    and [b] includes a name that resolves to the very path [a], as it is
    written, every run of the loop ends, and the set returned is exactly
    [{a, b}], whatever [pop] chooses. *)
Theorem C3_include_cycle (py3 : bool) (fs : filesys)
    (basepaths : list string) (a b ia ib : string) :
  _find_includes py3 fs a = {[ib]} →
  _makefullpath fs basepaths ib = Some b →
  _find_includes py3 fs b = {[ia]} →
  _makefullpath fs basepaths ia = Some a →
  sn (loop_step py3 fs basepaths) (loop_init a)
  ∧ returns py3 fs basepaths a {[a; b]}
  ∧ (∀ result, returns py3 fs basepaths a result → result = {[a; b]})
  ∧ ∃ fuel, ∀ n, fuel ≤ n →
      _find_all_includes n py3 fs basepaths a = Some {[a; b]}.
Proof.
  intros Ha Hib Hb Hia.
  pose proof (cycle_returns py3 fs basepaths a b ia ib Ha Hib Hb Hia) as Huniq.
  split_and!.
  - eapply loop_sn, loop_inv_init.
  - destruct (returns_exists py3 fs basepaths a) as [result Hr].
    by rewrite <-(Huniq _ Hr).
  - done.
  - destruct (run_returns_seed py3 fs basepaths a) as (fuel & result & Hrun).
    exists fuel. intros n Hn. destruct (Hrun n Hn) as [-> Hr].
    by rewrite (Huniq _ Hr).
Qed.

Lemma C3_a_c_and_b_h :
  _find_includes true fs_cycle "/r/a.c" = {["b.h"]}
  ∧ _makefullpath fs_cycle ["/r"] "b.h" = Some "/r/b.h"
  ∧ returns true fs_cycle ["/r"] "/r/a.c" {["/r/a.c"; "/r/b.h"]}.
Proof.
  split_and!; [by_compute..|].
  apply (C3_include_cycle true fs_cycle ["/r"] "/r/a.c" "/r/b.h" "a.c" "b.h");
    by_compute.
Defined.

(** ** C10: the seed is in the closure *)

(** C10: for all search roots and every seed, every run of the loop ends,
    some set is returned, and every set that can be returned holds the
    seed; when the seed is not an existing file that set is the seed alone. *)
Theorem C10_closure_contains_seed (py3 : bool) (fs : filesys)
    (basepaths : list string) (filename : string) :
  sn (loop_step py3 fs basepaths) (loop_init filename)
  ∧ (∃ result, returns py3 fs basepaths filename result)
  ∧ (∀ result, returns py3 fs basepaths filename result → filename ∈ result)
  ∧ (isfile fs filename = false →
     ∀ result, returns py3 fs basepaths filename result →
       result = {[filename]})
  ∧ ∃ fuel result, ∀ n, fuel ≤ n →
      _find_all_includes n py3 fs basepaths filename = Some result
      ∧ filename ∈ result.
Proof.
  split_and!.
  - eapply loop_sn, loop_inv_init.
  - apply returns_exists.
  - apply returns_seed.
  - intros Hf result. by apply returns_missing_seed.
  - destruct (run_returns_seed py3 fs basepaths filename)
      as (fuel & result & Hrun).
    exists fuel, result. intros n Hn. destruct (Hrun n Hn) as [? Hr].
    split; [done|]. by eapply returns_seed.
Qed.

(** ** C5: the root above a nested directory *)

(** C5, as stated, fails: [/p] holds the marker and [/p/a/b] is a directory
    below it, yet the walk from [/p/a/b] stops at [/p/a], which holds a
    marker of its own. *)
Lemma C5_nearest_marker_wins :
  has_marker fs_nested "/p" = true
  ∧ isdir fs_nested "/p/a/b" = true
  ∧ find_tags_root 10 fs_nested "/p/a/b" None = Some (Some "/p/a").
Proof. split_and!; by_compute. Qed.

(** C5, amended: when the directory [ds] holds the marker, the directories
    on the way down to [ds ++ cs] exist and none of those below [ds] holds
    a marker, [find_tags_root] returns [ds], at any depth. *)
Theorem C5_find_tags_root_nearest (fs : filesys) (ds cs : list string) :
  forallb plain (ds ++ cs) = true →
  forallb (isdir fs) (abs_path ds :: below ds cs) = true →
  has_marker fs (abs_path ds) = true →
  forallb (λ d, negb (has_marker fs d)) (below ds cs) = true →
  ∃ fuel, ∀ n, fuel ≤ n →
    find_tags_root n fs (abs_path (ds ++ cs)) None = Some (Some (abs_path ds)).
Proof.
  intros Hp Hd Hm Hn. exists (S (length cs)). intros n Hfuel.
  apply find_tags_root_walk; try done; by left.
Qed.

Lemma C5_project_src :
  has_marker fs_project "/home/u/p" = true
  ∧ ∃ fuel, ∀ n, fuel ≤ n →
      find_tags_root n fs_project "/home/u/p/src" None
      = Some (Some "/home/u/p").
Proof.
  split; [by_compute|].
  apply (C5_find_tags_root_nearest fs_project ["home"; "u"; "p"] ["src"]);
    by_compute.
Defined.

(** ** C4: no marker on the way up *)

(** C4 and the code part: from the relative directory [src], with no
    marker in it nor in the working directory, the recursion never ends,
    whatever the bound.  (From an absolute path it does end, with [None]:
    [find_tags_root_absolute_not_found].) *)
Theorem C4_relative_start_never_returns (fuel : nat) :
  find_tags_root fuel fs_relative "src" None = None.
Proof.
  destruct fuel as [|fuel]; [done|]. rewrite find_tags_root_S.
  change (normpath "src") with "src". change (dirname "src") with "".
  assert (isdir fs_relative "src" = true) as -> by by_compute.
  assert (has_marker fs_relative "src" = false) as -> by by_compute.
  cbn [negb]. rewrite bool_decide_eq_false_2 by done.
  apply find_tags_root_dot_loops; [by_compute..|done].
Qed.

(** * Further facts *)

(** ** The walk of [find_tags_root], from any start *)

Lemma iter_up_shift k p : Nat.iter k up (up p) = Nat.iter (S k) up p.
Proof. induction k as [|k IH]; [done|]. simpl in *. by rewrite IH. Qed.

Lemma find_tags_root_sound fuel fs current previous d :
  find_tags_root fuel fs current previous = Some (Some d) →
  ∃ k, d = Nat.iter k up (normpath current)
       ∧ isdir fs d = true ∧ has_marker fs d = true
       ∧ ∀ j, j < k → has_marker fs (Nat.iter j up (normpath current)) = false.
Proof.
  revert current previous.
  induction fuel as [|fuel IH]; intros current previous; [done|].
  rewrite find_tags_root_S.
  destruct (isdir fs (normpath current)) eqn:Hdir; [cbn [negb]|done].
  case_bool_decide; [done|].
  destruct (has_marker fs (normpath current)) eqn:Hm.
  - intros [= <-]. exists 0. split_and!; [done..|]. intros j Hj. lia.
  - intros (k & -> & ? & ? & Hlt)%IH. fold (up (normpath current)).
    exists (S k). rewrite <-iter_up_shift. split_and!; [done..|].
    intros [|j] Hj; [done|]. rewrite <-iter_up_shift. apply Hlt. lia.
Qed.

(** ** Running a rebuild *)

Lemma rebuild_run w self σ :
  rebuild w self σ =
    let cwd := match tf_root self with Some d => VStr d | None => VNone end in
    let kwargs := <["stderr" := VPipe]> {[ "cwd" := cwd ]} in
    let args := kwargs ∪ default ∅ (heap σ !! default_kwargs (subprocess self)) in
    let σ' := called (subprocess self) ["gtags"; "-v"] kwargs σ in
    match popen w ["gtags"; "-v"] args (heap σ') with
    | inl exn => (Raised exn, σ')
    | inr proc =>
        let success := bool_decide (returncode proc = 0%Z) in
        (Ok success,
         {| heap := heap σ'; next_ref := next_ref σ;
            popen_log := popen_log σ';
            printed := printed σ
                       ++ (if success then [] else [p_stderr proc]) |})
    end.
Proof.
  unfold rebuild, call. rewrite lookup_singleton_ne by done.
  unfold bind. rewrite create_run, argv_of_gtags_v. cbv zeta.
  cbn [heap called]. destruct (popen w _ _ _) as [exn|proc]; [done|].
  simpl. destruct (bool_decide _); simpl; [|done]. by rewrite app_nil_r.
Qed.

Lemma rebuild_heap w self σ :
  ∃ kwargs, heap (rebuild w self σ).2
            = heap (updated (subprocess self) kwargs σ).
Proof.
  rewrite rebuild_run. cbv zeta. eexists.
  destruct (popen w _ _ _); reflexivity.
Qed.

(** ** Frames *)

Lemma bind_ret {A B} (a : A) (k : A → M B) σ : bind (ret a) k σ = k a σ.
Proof. reflexivity. Qed.

Lemma bind_raise {A B} exn (k : A → M B) σ :
  bind (raise exn) k σ = (Raised exn, σ).
Proof. reflexivity. Qed.


Lemma open_files_symbols_run w self views σ names :
  quoted_files (w_fs w) views = inr names →
  open_files_symbols w self views σ
  = (let* out := stdout w (subprocess self)
                   ("global -q -f " +:+ join " " names) ∅ in
     let* text := decoded w out in
     ret (symbol_column (w_py3 w) text)) σ.
Proof.
  intros Hq. unfold open_files_symbols. rewrite Hq. cbn [lift].
  by rewrite bind_ret.
Qed.

Lemma open_files_symbols_heap w self views σ r :
  r ≠ default_kwargs (subprocess self) →
  heap (open_files_symbols w self views σ).2 !! r = heap σ !! r.
Proof.
  intros Hr. unfold open_files_symbols. unfold bind at 1.
  destruct (quoted_files _ views); [done|]. cbn [lift ret].
  rewrite query_heap. simpl. by rewrite lookup_insert_ne.
Qed.

Lemma current_include_path_heap fuel w self project filename σ r :
  r ≠ default_kwargs (subprocess self) →
  heap (current_include_path fuel w self project filename σ).2 !! r
  = heap σ !! r.
Proof.
  intros Hr. unfold current_include_path. unfold bind at 1.
  destruct (include_basepaths project filename) as [exn|basepaths]; [done|].
  cbn [lift ret].
  destruct (_find_all_includes _ _ _ _ _); [|done].
  rewrite query_heap. simpl. by rewrite lookup_insert_ne.
Qed.

(** ** Lines of an output *)

Lemma rev_app_rev_app l a b :
  String.rev_app (String.rev_app l a) b = String.rev_app a (l +:+ b).
Proof.
  revert a b. induction l as [|c l IH]; intros a b; [done|].
  simpl. rewrite IH. by rewrite app_cons.
Qed.

Lemma rev_rev_app l : String.rev (String.rev_app l "") = l.
Proof. unfold String.rev. rewrite rev_app_rev_app. simpl. apply app_empty_r. Qed.

Lemma islinebreak_nl py3 : islinebreak py3 nl = true.
Proof. by destruct py3. Qed.

Lemma splitlines_go_line py3 cur l rest :
  no_linebreak py3 l = true →
  splitlines_go py3 false cur (l +:+ String nl rest)
  = String.rev (String.rev_app l cur) :: splitlines_go py3 false "" rest.
Proof.
  revert cur. induction l as [|c l IH]; intros cur Hl.
  - rewrite app_empty_l. by cbn.
  - unfold no_linebreak in Hl. simpl in Hl.
    apply andb_true_iff in Hl as [Hc%negb_true_iff Hl].
    rewrite app_cons. cbn [splitlines_go andb]. rewrite Hc.
    by rewrite IH.
Qed.

(** [splitlines] gives back the lines of a text made of closed lines. *)
Lemma splitlines_unlines py3 lines :
  forallb (no_linebreak py3) lines = true →
  splitlines py3 (unlines lines) = lines.
Proof.
  unfold splitlines. induction lines as [|l lines IH]; [done|].
  cbn [forallb unlines]. intros [Hl Hls]%andb_true_iff.
  rewrite splitlines_go_line by done. by rewrite rev_rev_app, IH.
Qed.

Lemma take_while_app p a x :
  str_all p a = true → take_while p (a +:+ x) = a +:+ take_while p x.
Proof.
  induction a as [|c a IH]; [done|]. simpl.
  intros [Hc Ha]%andb_true_iff. rewrite ?app_cons. simpl.
  by rewrite Hc, IH.
Qed.

Lemma drop_while_app p a x :
  str_all p a = true → drop_while p (a +:+ x) = drop_while p x.
Proof.
  induction a as [|c a IH]; [done|]. simpl.
  intros [Hc Ha]%andb_true_iff. rewrite ?app_cons. simpl.
  by rewrite Hc, IH.
Qed.

Lemma first_column_row s r :
  str_all notblank s = true → first_column (s +:+ " " +:+ r) = s.
Proof.
  intros Hs. rewrite first_column_take_while, take_while_app by done.
  change (" " +:+ r) with (String " " r). simpl. apply app_empty_r.
Qed.

(** ** Records *)

Lemma is_word_cons py3 c w :
  isspace py3 c = false →
  w = "" ∨ is_word py3 w = true → is_word py3 (String c w) = true.
Proof.
  intros Hc Hw. unfold is_word. simpl. rewrite (notspace_true py3 c Hc).
  destruct Hw as [->|Hw]; [done|].
  unfold is_word in Hw. by apply andb_true_iff in Hw as [_ ->].
Qed.

(** The fields of a line are words. *)
Lemma fields_words py3 s : Forall (λ w, is_word py3 w = true) (fields py3 s).
Proof.
  induction s as [|c s IH]; [constructor|]. rewrite fields_cons.
  destruct (isspace py3 c) eqn:Hc; [done|].
  destruct s as [|c' s]; [constructor; [by apply is_word_cons; auto|done]|].
  destruct (isspace py3 c') eqn:Hc'.
  - constructor; [by apply is_word_cons; auto|done].
  - destruct (fields py3 (String c' s)) as [|w ws].
    + constructor; [by apply is_word_cons; auto|done].
    + apply Forall_cons in IH as [Hw Hws].
      constructor; [by apply is_word_cons; auto|done].
Qed.

Lemma str_all_take_while p s : str_all p (take_while p s) = true.
Proof.
  induction s as [|c s IH]; [done|]. simpl.
  destruct (p c) eqn:Hc; [|done]. simpl. by rewrite Hc.
Qed.

Lemma match_lines_elem py3 lines r :
  r ∈ match_lines py3 lines →
  ∃ l, l ∈ lines ∧ line_record py3 l = Some r.
Proof.
  induction lines as [|l lines IH]; simpl; [by intros ?%elem_of_nil|].
  pose proof (search_line_record py3 l) as Hl.
  destruct (re_search py3 TAGS_RE l) as [caps|]; simpl in Hl.
  - intros [->|Hr]%elem_of_cons.
    + exists l. split; [left|done].
    + destruct (IH Hr) as (l' & ? & ?). exists l'. split; [by right|done].
  - intros Hr. destruct (IH Hr) as (l' & ? & ?).
    exists l'. split; [by right|done].
Qed.

(** ** A line in the format of the tool *)

Lemma word_head py3 a :
  is_word py3 a = true → ∃ c t, a = String c t ∧ isspace py3 c = false.
Proof.
  unfold is_word. intros [Hne Ha]%andb_true_iff.
  destruct a as [|c t]; [done|]. exists c, t. split; [done|].
  simpl in Ha. apply andb_true_iff in Ha as [Hc _].
  unfold notspace in Hc. by destruct (isspace py3 c).
Qed.

Lemma gap_head py3 s :
  is_gap py3 s = true → ∃ c t, s = String c t ∧ isspace py3 c = true.
Proof.
  unfold is_gap. intros [Hne Hs]%andb_true_iff.
  destruct s as [|c t]; [done|]. exists c, t. split; [done|].
  simpl in Hs. by apply andb_true_iff in Hs as [Hc _].
Qed.

Lemma lstrip_fixed py3 s : lstrip py3 s = s ↔ take_while (isspace py3) s = "".
Proof. symmetry. apply take_while_empty_iff. Qed.

(** One field, a gap, and a rest that does not start with white space. *)
Lemma field_word_gap py3 a s y :
  is_word py3 a = true → is_gap py3 s = true → lstrip py3 y = y →
  field py3 (a +:+ s +:+ y) = Some (a, y).
Proof.
  intros Ha Hs Hy. unfold field.
  pose proof Ha as Ha'. unfold is_word in Ha'.
  apply andb_true_iff in Ha' as [Hne%negb_true_iff%bool_decide_eq_false Hall].
  pose proof Hs as Hs'. unfold is_gap in Hs'.
  apply andb_true_iff in Hs' as [Hsne%negb_true_iff%bool_decide_eq_false Hsall].
  destruct (gap_head py3 s Hs) as (c & t & Es & Hc).
  rewrite take_while_app, drop_while_app by done.
  assert (take_while (notspace py3) (s +:+ y) = "") as ->.
  { rewrite Es, app_cons. simpl. by rewrite (notspace_false py3 c Hc). }
  assert (drop_while (notspace py3) (s +:+ y) = s +:+ y) as ->.
  { rewrite Es, app_cons. simpl. by rewrite (notspace_false py3 c Hc). }
  rewrite app_empty_r, take_while_app, drop_while_app by done.
  apply lstrip_fixed in Hy as Hy'. rewrite Hy', app_empty_r.
  rewrite (bool_decide_eq_false_2 (a = "")) by done.
  rewrite (bool_decide_eq_false_2 (s = "")) by done.
  simpl. unfold lstrip in Hy. by rewrite Hy.
Qed.

Lemma lstrip_word_app py3 a y :
  is_word py3 a = true → lstrip py3 (a +:+ y) = a +:+ y.
Proof.
  intros (c & t & -> & Hc)%word_head. unfold lstrip.
  rewrite app_cons. simpl. by rewrite Hc.
Qed.

(** ** Giving back, in the matcher *)

Section ManyBack.
Context {R : Type} (p : ascii → bool) (cont : nat → string → option R).

(** No way of cutting [t] after characters of the class lets the rest of
    the pattern match. *)
Definition all_fail (t : string) : Prop :=
  ∀ u v, t = u +:+ v → str_all p u = true → ∀ pos, cont pos v = None.

Lemma all_fail_tail c t : all_fail (String c t) → p c = true → all_fail t.
Proof.
  intros H Hc u v -> Hu pos. apply (H (String c u) v); [done|].
  simpl. by rewrite Hc.
Qed.

Lemma many_all_fail min pos t : all_fail t → many p cont min pos t = None.
Proof.
  revert min pos. induction t as [|c t IH]; intros min pos Hf.
  - simpl. destruct min; [|done]. by apply (Hf "" "").
  - simpl. assert (cont pos (String c t) = None) as Hhere
      by by apply (Hf "" (String c t)).
    destruct (p c) eqn:Hc.
    + rewrite IH by by eapply all_fail_tail. destruct min; done.
    + destruct min; done.
Qed.

(** The repetition stops at the last place where the rest matches. *)
Lemma many_last min pos w c t r :
  str_all p w = true → min ≤ String.length w → p c = true →
  cont (pos + String.length w) (String c t) = Some r →
  all_fail t →
  many p cont min pos (w +:+ String c t) = Some r.
Proof.
  revert min pos. induction w as [|a w IH]; intros min pos Hw Hmin Hc Hr Hf.
  - rewrite app_empty_l. simpl in *. rewrite Hc, many_all_fail by done.
    destruct min; [|lia]. by rewrite Nat.add_0_r in Hr.
  - simpl in Hw. apply andb_true_iff in Hw as [Ha Hw].
    rewrite app_cons. simpl. rewrite Ha.
    rewrite (IH (pred min) (S pos)); [done|done|simpl in Hmin; lia|done| |done].
    simpl in Hr. by replace (S pos + String.length w)
      with (pos + S (String.length w)) by lia.
Qed.
End ManyBack.

(** ** A quoted directive *)

Lemma notnl_dquote : notnl dquote = true.
Proof. done. Qed.

Lemma startswith_app pre x : startswith pre (pre +:+ x) = true.
Proof.
  induction pre as [|c pre IH]; [done|]. rewrite app_cons. simpl.
  unfold ascii_eqb. by rewrite bool_decide_eq_true_2, IH.
Qed.

Lemma str_drop_app pre x : str_drop (String.length pre) (pre +:+ x) = x.
Proof. induction pre as [|c pre IH]; [by destruct x|]. by rewrite app_cons. Qed.

Lemma str_take_app w v :
  str_take (String.length (w +:+ v) - String.length v) (w +:+ v) = w.
Proof.
  rewrite str_length_app.
  replace (String.length w + String.length v - String.length v)
    with (String.length w) by lia.
  induction w as [|c w IH]; [by destruct v|].
  rewrite app_cons. simpl. by rewrite IH.
Qed.

(** Past the last quote of a line no cut is followed by a quote. *)
Lemma no_quote_after after u v :
  noquote (take_while notnl after) = true →
  after = u +:+ v → str_all notnl u = true →
  ∀ c t, v = String c t → c ≠ dquote.
Proof.
  revert after. induction u as [|a u IH]; intros after Hq -> Hu c t ->.
  - rewrite app_empty_l in Hq. simpl in Hq.
    destruct (notnl c) eqn:Hc.
    + simpl in Hq. apply andb_true_iff in Hq as [Hq _].
      unfold ascii_eqb in Hq. by apply negb_true_iff, bool_decide_eq_false in Hq.
    + intros ->. by rewrite notnl_dquote in Hc.
  - simpl in Hu. apply andb_true_iff in Hu as [Ha Hu].
    rewrite app_cons in Hq. simpl in Hq. rewrite Ha in Hq. simpl in Hq.
    apply andb_true_iff in Hq as [_ Hq].
    by eapply (IH (u +:+ String c t)).
Qed.

Section Quoted.
Variable py3 : bool.

(** The end of the pattern: the group is closed and a quote must follow. *)
Lemma re_match_close_quote o k pos v :
  re_match py3 [IClose "1"; IOne (CLit dquote)] o k pos v =
    match v with
    | String c _ =>
        if bool_decide (c = dquote) then Some (close_group "1" o k v) else None
    | EmptyString => None
    end.
Proof. destruct v as [|c v]; [done|]. done. Qed.

Lemma re_search_quoted gap target after :
  is_gap py3 gap = true → str_all notnl target = true →
  noquote (take_while notnl after) = true →
  re_search py3 INCLUDE_RE
    ("#include" +:+ gap +:+ String dquote (target +:+ String dquote after))
  = Some [("1", target)].
Proof.
  intros Hg Ht Hq. unfold INCLUDE_RE. cbn [app]. rewrite re_search_bol.
  set (line := "#include" +:+ _).
  change (re_match py3 (IStar CSpace :: ?r) [] [] 0 line)
    with (many (isspace py3) (re_match py3 r [] []) 0 0 line).
  rewrite many_commit; cycle 1.
  { intros c s' pos' Hc. cbn [lit app re_match in_class].
    unfold ascii_eqb. case_bool_decide; [|done].
    subst c. by rewrite isspace_hash in Hc. }
  assert (take_while (isspace py3) line = "") as Htw.
  { unfold line. change ("#include" +:+ ?x) with (String "#" ("include" +:+ x)).
    cbn [take_while]. by rewrite isspace_hash. }
  assert (drop_while (isspace py3) line = line) as ->
    by by apply take_while_empty_iff.
  rewrite Htw, decide_True by (simpl; lia). simpl String.length.
  rewrite (re_match_lit py3 "#include"). unfold line at 1.
  rewrite startswith_app. unfold line.
  rewrite (str_drop_app "#include").
  rewrite re_match_spaces_commit; cycle 1.
  { intros c s' pos' Hc. cbn [re_match in_class].
    unfold ascii_eqb. case_bool_decide; [|done].
    subst c. by rewrite isspace_dquote in Hc. }
  pose proof Hg as Hg'. unfold is_gap in Hg'.
  apply andb_true_iff in Hg' as [Hne%negb_true_iff%bool_decide_eq_false Hall].
  assert (take_while (isspace py3) (String dquote (target +:+ String dquote after))
          = "") as Hd by (cbn [take_while]; by rewrite isspace_dquote).
  assert (drop_while (isspace py3) (String dquote (target +:+ String dquote after))
          = String dquote (target +:+ String dquote after)) as Hd'
    by (cbn [drop_while]; by rewrite isspace_dquote).
  rewrite take_while_app, drop_while_app, Hd, Hd', app_empty_r by done.
  rewrite (bool_decide_eq_false_2 (gap = "")) by done.
  set (pos := 0 + _ + _).
  set (s0 := target +:+ String dquote after).
  change (re_match py3 [IOne (CLit dquote); IOpen "1"; IStar CDot; IClose "1";
                        IOne (CLit dquote)] [] [] pos (String dquote s0))
    with (many notnl (re_match py3 [IClose "1"; IOne (CLit dquote)]
                        [("1", s0)] []) 0 (S pos) s0).
  unfold s0. apply many_last; [done|lia|done| |].
  - change (in_class py3 (CLit dquote) dquote) with true. cbv iota.
    rewrite close_group_top.
    change (String dquote after) with (String dquote "" +:+ after) at 1.
    by rewrite str_take_app.
  - intros u v Hv Hu pos'.
    change (re_match py3 [IClose "1"; IOne (CLit dquote)]
              [("1", target +:+ String dquote after)] [] pos' v = None).
    rewrite re_match_close_quote.
    destruct v as [|c t]; [done|].
    rewrite bool_decide_eq_false_2; [done|].
    by eapply no_quote_after.
Qed.

Lemma lstrip_indent indent x :
  str_all (isspace py3) indent = true → lstrip py3 x = x →
  lstrip py3 (indent +:+ x) = x.
Proof. intros Hi Hx. unfold lstrip in *. by rewrite drop_while_app. Qed.

(** Each line adds to the set on its own. *)
Lemma scan_line_union includes line :
  scan_line py3 includes line = scan_line py3 ∅ line ∪ includes.
Proof.
  unfold scan_line. destruct (startswith "#include" _); [|set_solver].
  destruct (re_search py3 INCLUDE_RE _) as [caps|]; [|set_solver].
  destruct (assoc "1" caps); set_solver.
Qed.

Lemma elem_of_foldl_scan_line lines includes t :
  t ∈ foldl (scan_line py3) includes lines ↔
    t ∈ includes ∨ ∃ line, line ∈ lines ∧ t ∈ scan_line py3 ∅ line.
Proof.
  revert includes. induction lines as [|l lines IH]; intros includes; simpl.
  - split; [by left|]. intros [?|(? & ?%elem_of_nil & _)]; done.
  - rewrite IH, scan_line_union. split.
    + intros [[?|?]%elem_of_union|(line & ? & ?)].
      * right. exists l. split; [left|done].
      * by left.
      * right. exists line. split; [by right|done].
    + intros [?|(line & [->|?]%elem_of_cons & ?)].
      * left. set_solver.
      * left. set_solver.
      * right. by exists line.
Qed.
End Quoted.



(** ** Views *)

Lemma quoted_files_cases fs views :
  quoted_files fs views =
    if bool_decide (None ∈ views) then inl "TypeError"
    else inr ((λ x, String dquote x +:+ String dquote "")
              <$> filter (λ x, isfile fs x = true) (omap id views)).
Proof.
  induction views as [|[x|] views IH].
  - by rewrite bool_decide_eq_false_2 by by intros ?%elem_of_nil.
  - cbn [quoted_files]. rewrite IH.
    rewrite (bool_decide_ext (None ∈ Some x :: views) (None ∈ views))
      by (rewrite elem_of_cons; naive_solver).
    case_bool_decide; [done|].
    change (omap id (Some x :: views)) with (x :: omap id views).
    rewrite filter_cons.
    destruct (isfile fs x); [by rewrite decide_True|by rewrite decide_False].
  - cbn [quoted_files]. by rewrite bool_decide_eq_true_2 by left.
Qed.

Lemma omap_id_Some (l : list string) : omap id (Some <$> l) = l.
Proof.
  induction l as [|x l IH]; [done|].
  change (omap id (Some <$> x :: l)) with (x :: omap id (Some <$> l)).
  by rewrite IH.
Qed.

Lemma filter_isfile_idemp fs (views : list string) :
  filter (λ x, isfile fs x = true) (filter (λ x, isfile fs x = true) views)
  = filter (λ x, isfile fs x = true) views.
Proof.
  induction views as [|v views IH]; [done|].
  rewrite filter_cons. case_decide as Hv; [|done].
  by rewrite filter_cons, decide_True, IH.
Qed.

Lemma None_not_in_Some (l : list string) : None ∉ (Some <$> l).
Proof. intros (x & ? & _)%list_elem_of_fmap. done. Qed.

(** ** The constructor *)

Lemma map_expand_posix w l :
  IS_WINDOWS w = false →
  map_raising (_expand_path w) l = inr ((λ p, VStr (expand w p)) <$> l).
Proof.
  intros Hw. induction l as [|x l IH]; [done|]. cbn [map_raising].
  rewrite IH. unfold _expand_path. by rewrite Hw.
Qed.

Lemma map_expand_bytes w l :
  IS_WINDOWS w = true → w_py3 w = true →
  map_raising (_expand_path w) l
  = inr ((λ p, VBytes (utf8_encode (expand w p))) <$> l).
Proof.
  intros Hw Hpy. induction l as [|x l IH]; [done|]. cbn [map_raising].
  rewrite IH. unfold _expand_path. by rewrite Hw, Hpy.
Qed.

Lemma map_expand_py2 w l :
  IS_WINDOWS w = true → w_py3 w = false →
  map_raising (_expand_path w) l
  = if forallb (λ p, is_ascii (expand w p)) l
    then inr ((λ p, VStr (expand w p)) <$> l)
    else inl "UnicodeDecodeError".
Proof.
  intros Hw Hpy. induction l as [|x l IH]; [done|]. cbn [map_raising forallb].
  rewrite IH. unfold _expand_path. rewrite Hw, Hpy.
  destruct (is_ascii (expand w x)); [|done]. by destruct (forallb _ l).
Qed.

Lemma str_items_str (f : string → string) l :
  str_items ((λ p, VStr (f p)) <$> l) = Some (f <$> l).
Proof.
  induction l as [|x l IH]; [done|]. rewrite !fmap_cons.
  cbn [str_items]. by rewrite IH.
Qed.

(** What the constructor returns, when it returns. *)
Lemma TagFile_init_Ok w root_dir extra_paths σ self σ1 :
  TagFile_init w root_dir extra_paths σ = (Ok self, σ1) →
  self = fresh_tagfile root_dir σ
  ∧ heap σ1 !! S (next_ref σ) = Some (kwargs_built w (next_ref σ))
  ∧ popen_log σ1 = popen_log σ.
Proof.
  unfold TagFile_init, TagSubprocess_init, fresh_tagfile, kwargs_built.
  destruct root_dir as [d|], extra_paths as [|x xs];
    try destruct (_expand_path w d) as [exn|v];
    try destruct (map_raising (_expand_path w) (x :: xs)) as [exn'|items];
    unfold bind, lift, raise, ret, new_dict, setitem, read_dict, write_dict,
      str_join;
    cbn; try done;
    try (destruct (str_items items); cbn; try done);
    destruct (IS_WINDOWS w); cbn; intros [= <- <-]; cbn;
    by simplify_map_eq.
Qed.

(** ** Commands split into words *)

Lemma shlex_go_plain quoted token w rest :
  str_all plain_char w = true →
  shlex_go ShWord quoted token (w +:+ rest)
  = shlex_go ShWord quoted (token +:+ w) rest.
Proof.
  revert token. induction w as [|c w IH]; intros token Hw.
  - by rewrite app_empty_l, app_empty_r.
  - simpl in Hw. apply andb_true_iff in Hw as [Hc Hw].
    unfold plain_char in Hc.
    apply andb_true_iff in Hc as [[Hws Hq]%andb_true_iff Hb].
    apply negb_true_iff in Hws, Hq, Hb.
    rewrite app_cons. cbn [shlex_go]. rewrite Hws, Hq, Hb.
    rewrite IH by done. unfold add_char. by rewrite app_assoc', app_cons.
Qed.

Lemma shlex_go_quoted q quoted token body rest :
  shlex_quotes q = true → quotable q body = true →
  shlex_go (ShQuote q) quoted token (body +:+ String q rest)
  = shlex_go ShWord true (token +:+ body) rest.
Proof.
  intros Hq. revert quoted token.
  induction body as [|c body IH]; intros quoted token Hb.
  - rewrite app_empty_l, app_empty_r. cbn [shlex_go].
    unfold ascii_eqb at 1. by rewrite bool_decide_eq_true_2.
  - unfold quotable in Hb. simpl in Hb.
    apply andb_true_iff in Hb as [[Hc He]%andb_true_iff Hb].
    apply negb_true_iff in Hc, He.
    rewrite app_cons. cbn [shlex_go]. rewrite Hc, He.
    rewrite IH by done. unfold add_char. by rewrite app_assoc', app_cons.
Qed.

Lemma spells_word w : shell_word w = true → spells w w.
Proof.
  unfold shell_word. intros [Hne%negb_true_iff%bool_decide_eq_false Hw]%andb_true_iff.
  exists false. split; [by right|]. intros rest.
  destruct w as [|c w]; [done|]. simpl in Hw.
  apply andb_true_iff in Hw as [Hc Hw]. unfold plain_char in Hc.
  apply andb_true_iff in Hc as [[Hws Hq]%andb_true_iff Hb].
  apply negb_true_iff in Hws, Hq, Hb.
  rewrite app_cons. cbn [shlex_go]. rewrite Hws, Hq, Hb.
  by rewrite shlex_go_plain.
Qed.

Lemma spells_quoted q x :
  shlex_quotes q = true → quotable q x = true →
  spells (String q x +:+ String q "") x.
Proof.
  intros Hq Hx. exists true. split; [by left|]. intros rest.
  rewrite !app_cons, app_assoc', app_cons, app_empty_l. cbn [shlex_go].
  assert (shlex_whitespace q = false ∧ ascii_eqb q backslash = false)
    as [-> ->].
  { unfold shlex_quotes, ascii_eqb in Hq.
    apply orb_true_iff in Hq as [E%bool_decide_eq_true|E%bool_decide_eq_true];
      by rewrite E. }
  rewrite Hq. by rewrite shlex_go_quoted.
Qed.

(** The reader at the end of a word. *)
Lemma shlex_go_word_end quoted c :
  quoted = true ∨ c ≠ "" → shlex_go ShWord quoted c "" = Some [c].
Proof.
  intros H. cbn [shlex_go].
  destruct H as [->|H]; [by rewrite orb_true_r|].
  by rewrite bool_decide_eq_false_2.
Qed.

Lemma shlex_go_word_blank quoted c rest :
  quoted = true ∨ c ≠ "" →
  shlex_go ShWord quoted c (String " " rest)
  = cons c <$> shlex_go ShBlank false "" rest.
Proof.
  intros H. cbn [shlex_go]. change (shlex_whitespace " ") with true.
  cbv iota. destruct H as [->|H]; [by rewrite orb_true_r|].
  by rewrite bool_decide_eq_false_2.
Qed.

(** Spelled words, one blank between them, are split into the words. *)
Lemma shlex_spelled (items : list (string * string)) :
  Forall (λ i, spells i.1 i.2) items →
  shlex_go ShBlank false "" (join " " items.*1) = Some items.*2.
Proof.
  induction 1 as [|[s c] items (quoted & Hq & Hs) _ IH]; [done|].
  cbn [fmap list_fmap fst snd] in *.
  destruct items as [|i items].
  - cbn [join fmap list_fmap]. rewrite <-(app_empty_r s), Hs.
    by apply shlex_go_word_end.
  - change (join " " (s :: (i :: items).*1))
      with (s +:+ " " +:+ join " " (i :: items).*1).
    rewrite Hs. change (" " +:+ ?r) with (String " " r).
    rewrite shlex_go_word_blank by done. by rewrite IH.
Qed.

Lemma is_ascii_app s t : is_ascii (s +:+ t) = is_ascii s && is_ascii t.
Proof.
  unfold is_ascii. induction s as [|c s IH]; [done|].
  rewrite app_cons. simpl. by rewrite IH, andb_assoc.
Qed.

Lemma is_ascii_join sep l :
  is_ascii sep = true → forallb is_ascii l = true →
  is_ascii (join sep l) = true.
Proof.
  intros Hsep. induction l as [|x l IH]; [done|].
  cbn [forallb]. intros [Hx Hl]%andb_true_iff.
  destruct l as [|y l]; [done|].
  change (join sep (x :: y :: l)) with (x +:+ sep +:+ join sep (y :: l)).
  by rewrite !is_ascii_app, Hx, Hsep, IH.
Qed.

(** The command of spelled words, under either Python. *)
Lemma argv_of_spelled py3 (items : list (string * string)) :
  Forall (λ i, spells i.1 i.2) items →
  (py3 = false → forallb is_ascii items.*1 = true) →
  argv_of py3 (join " " items.*1) = inr items.*2.
Proof.
  intros Hs Ha. unfold argv_of, shlex_split. rewrite shlex_spelled by done.
  destruct py3; [done|]. by rewrite is_ascii_join by auto.
Qed.

Lemma is_ascii_in_quotes q x :
  is_ascii (String q "") = true → is_ascii x = true →
  is_ascii (in_quotes q x) = true.
Proof.
  intros Hq Hx. unfold in_quotes.
  change (String q x) with (String q "" +:+ x).
  by rewrite !is_ascii_app, Hq, Hx.
Qed.

Lemma forallb_fmap {A B} (p : B → bool) (f : A → B) l :
  forallb p (f <$> l) = forallb (p ∘ f) l.
Proof.
  induction l as [|x l IH]; [done|]. rewrite fmap_cons. cbn [forallb].
  by rewrite IH.
Qed.

Lemma forallb_impl {A} (p q : A → bool) l :
  (∀ x, p x = true → q x = true) →
  forallb p l = true → forallb q l = true.
Proof.
  intros Hpq. induction l as [|x l IH]; [done|]. simpl.
  intros [Hx Hl]%andb_true_iff. by rewrite (Hpq x Hx), IH.
Qed.

(** Names between quotes, as words. *)
Lemma spelled_names q (l : list string) :
  shlex_quotes q = true → forallb (quotable q) l = true →
  Forall (λ i : string * string, spells i.1 i.2)
    ((λ x, (in_quotes q x, x)) <$> l).
Proof.
  intros Hq Hl. apply Forall_fmap, Forall_forall. intros x Hx.
  apply spells_quoted; [done|].
  rewrite forallb_forall in Hl. by apply Hl, list_elem_of_In.
Qed.

Lemma fmap_fst_pairs {A B} (f : A → B) (l : list A) :
  ((λ x, (f x, x)) <$> l).*1 = f <$> l.
Proof. induction l as [|x l IH]; [done|]. by rewrite !fmap_cons, IH. Qed.

Lemma fmap_snd_pairs {A B} (f : A → B) (l : list A) :
  ((λ x, (f x, x)) <$> l).*2 = l.
Proof. induction l as [|x l IH]; [done|]. by rewrite !fmap_cons, IH. Qed.


Lemma join_literal_cons a l :
  l ≠ [] → join " " (a :: l) = a +:+ " " +:+ join " " l.
Proof. by destruct l. Qed.

(** * Properties beyond the claims *)

(** ** Resolution of an include target *)

(** X1: [_makefullpath] returns the candidate of the first base path under
    which the file exists, and nothing exactly when no base path has it. *)
Theorem X1_makefullpath_first_match (fs : filesys) (basepaths : list string)
    (filename : string) :
  match _makefullpath fs basepaths filename with
  | Some j =>
      ∃ pre path post,
        basepaths = pre ++ path :: post
        ∧ j = path +:+ "/" +:+ filename
        ∧ isfile fs j = true
        ∧ Forall (λ q, isfile fs (q +:+ "/" +:+ filename) = false) pre
  | None => Forall (λ q, isfile fs (q +:+ "/" +:+ filename) = false) basepaths
  end.
Proof.
  induction basepaths as [|p bp IH]; simpl; [done|].
  destruct (isfile fs (p +:+ "/" +:+ filename)) eqn:Hp.
  - exists [], p, bp. by split_and!.
  - destruct (_makefullpath fs bp filename) as [j|].
    + destruct IH as (pre & path & post & -> & -> & Hj & Hpre).
      exists (p :: pre), path, post. split_and!; try done. by constructor.
    + by constructor.
Qed.

(** ** The root of the index *)

(** X2: a directory that [find_tags_root] returns is an existing directory
    whose listing holds [GTAGS]; it is reached from the normalised start by
    going up some number of times, and no directory passed on the way holds
    the marker. *)
Theorem X2_find_tags_root_sound (fuel : nat) (fs : filesys)
    (current d : string) :
  find_tags_root fuel fs current None = Some (Some d) →
  ∃ k, d = Nat.iter k up (normpath current)
       ∧ isdir fs d = true
       ∧ "GTAGS" ∈ listdir fs d
       ∧ ∀ j, j < k → "GTAGS" ∉ listdir fs (Nat.iter j up (normpath current)).
Proof.
  intros (k & -> & Hd & Hm & Hlt)%find_tags_root_sound.
  exists k. split_and!; [done..| |].
  - by apply bool_decide_eq_true in Hm.
  - intros j Hj. apply Hlt in Hj. by apply bool_decide_eq_false in Hj.
Qed.

Lemma X2_project_root_found :
  find_tags_root 5 fs_project "/home/u/p//src/" None = Some (Some "/home/u/p")
  ∧ ∃ k, "/home/u/p" = Nat.iter k up (normpath "/home/u/p//src/")
         ∧ isdir fs_project "/home/u/p" = true.
Proof.
  split; [by_compute|].
  destruct (X2_find_tags_root_sound 5 fs_project "/home/u/p//src/" "/home/u/p")
    as (k & ? & ? & _); [by_compute|]. by exists k.
Defined.

(** X3: from an absolute, normalised directory with no marker in it nor in
    any directory above it, [find_tags_root] returns [None], after at most
    one call per directory on the way up and one more at the root. *)
Theorem X3_find_tags_root_not_found (fs : filesys) (cs : list string)
    (n : nat) :
  forallb plain cs = true →
  forallb (λ d, negb (has_marker fs d)) (abs_path [] :: below [] cs) = true →
  length cs + 2 ≤ n →
  find_tags_root n fs (abs_path cs) None = Some None.
Proof.
  intros Hp Hn Hfuel.
  apply find_tags_root_absolute_not_found; [done|done|by left|lia].
Qed.

Lemma X3_outside_the_project :
  find_tags_root 5 fs_project "/home/u/q" None = Some None.
Proof.
  apply (X3_find_tags_root_not_found fs_project ["home"; "u"; "q"] 5);
    [by_compute..|simpl; lia].
Defined.

(** ** Construction *)

(** X4: [TagFile(root_dir, extra_paths)] starts no process and touches no
    dictionary but the two it makes.  Off Windows it succeeds: the
    environment holds [PATH], [GTAGSROOT] exactly when a root is given
    and [GTAGSLIBPATH] exactly when there are extra paths (expanded, joined
    by the path separator), and no other key; the default arguments hold a
    reference to it.  On Windows the paths are encoded: under Python 3
    the root becomes [bytes] and any extra path makes the constructor raise
    [TypeError]; under Python 2 it succeeds as off Windows (with [shell])
    when the expanded paths are ASCII and raises [UnicodeDecodeError]
    otherwise. *)
Theorem X4_TagFile_init (w : world) (root_dir : option string)
    (extra_paths : list string) (σ : state) :
  let r := TagFile_init w root_dir extra_paths σ in
  let e := next_ref σ in
  let built (wrap : string → pyval) :=
    r.1 = Ok (fresh_tagfile root_dir σ)
    ∧ (∃ env, heap r.2 !! e = Some env
              ∧ env_built w root_dir extra_paths wrap env)
    ∧ heap r.2 !! S e = Some (kwargs_built w e) in
  popen_log r.2 = popen_log σ
  ∧ (∀ l, l ≠ e → l ≠ S e → heap r.2 !! l = heap σ !! l)
  ∧ (IS_WINDOWS w = false → built VStr)
  ∧ (IS_WINDOWS w = true → w_py3 w = true →
     match extra_paths with
     | [] => built (λ p, VBytes (utf8_encode p))
     | _ :: _ => r.1 = Raised "TypeError"
     end)
  ∧ (IS_WINDOWS w = true → w_py3 w = false →
     if forallb (λ p, is_ascii (expand w p))
          (option_list root_dir ++ extra_paths)
     then built VStr
     else r.1 = Raised "UnicodeDecodeError").
Proof.
  cbv zeta.
  unfold TagFile_init, TagSubprocess_init, fresh_tagfile, kwargs_built,
    env_built.
  destruct (IS_WINDOWS w) eqn:Hw, (w_py3 w) eqn:Hpy.
  - (* Windows, Python 3 *)
    rewrite map_expand_bytes by done.
    destruct root_dir as [d|], extra_paths as [|x xs];
      unfold _expand_path; rewrite ?Hw, ?Hpy;
      unfold bind, lift, raise, ret, new_dict, setitem, read_dict,
        write_dict, str_join;
      cbn; rewrite ?Hw; cbn;
      (split_and!; [done|by intros; simplify_map_eq|done| |done]);
      intros _ _; try done;
      (split_and!; [done| |by simplify_map_eq]);
      eexists; (split; [by simplify_map_eq|]);
      (split_and!; [by simplify_map_eq..|set_solver]).
  - (* Windows, Python 2 *)
    rewrite map_expand_py2 by done.
    destruct root_dir as [d|], extra_paths as [|x xs];
      unfold _expand_path; rewrite ?Hw, ?Hpy;
      cbn [option_list app forallb];
      try destruct (is_ascii (expand w d)) eqn:Hd;
      try destruct (is_ascii (expand w x)) eqn:Hx;
      try destruct (forallb (λ p, is_ascii (expand w p)) xs) eqn:Hxs;
      unfold bind, lift, raise, ret, new_dict, setitem, read_dict,
        write_dict, str_join;
      cbn; rewrite ?Hw, ?Hd, ?Hx, ?Hxs, ?str_items_str; cbn;
      (split_and!; [done|by intros; simplify_map_eq|done|done|]);
      intros _ _; try done;
      (split_and!; [done| |by simplify_map_eq]);
      eexists; (split; [by simplify_map_eq|]);
      (split_and!; [by simplify_map_eq..|set_solver]).
  - (* elsewhere, Python 3 *)
    rewrite map_expand_posix by done.
    destruct root_dir as [d|], extra_paths as [|x xs];
      unfold _expand_path; rewrite ?Hw;
      unfold bind, lift, raise, ret, new_dict, setitem, read_dict,
        write_dict, str_join;
      cbn; rewrite ?Hw, ?str_items_str; cbn;
      (split_and!; [done|by intros; simplify_map_eq| |done|done]);
      intros _;
      (split_and!; [done| |by simplify_map_eq]);
      eexists; (split; [by simplify_map_eq|]);
      (split_and!; [by simplify_map_eq..|set_solver]).
  - (* elsewhere, Python 2 *)
    rewrite map_expand_posix by done.
    destruct root_dir as [d|], extra_paths as [|x xs];
      unfold _expand_path; rewrite ?Hw;
      unfold bind, lift, raise, ret, new_dict, setitem, read_dict,
        write_dict, str_join;
      cbn; rewrite ?Hw, ?str_items_str; cbn;
      (split_and!; [done|by intros; simplify_map_eq| |done|done]);
      intros _;
      (split_and!; [done| |by simplify_map_eq]);
      eexists; (split; [by simplify_map_eq|]);
      (split_and!; [by simplify_map_eq..|set_solver]).
Qed.

(** ** What the operations change *)

(** X5: no operation of a [TagFile] changes a dictionary other than the one
    of the default arguments; the environment mapping, which is another
    dictionary, stays as it was built. *)
Theorem X5_other_dictionaries_kept (w : world) (self : TagFile) (σ : state)
    (r : nat) :
  r ≠ default_kwargs (subprocess self) →
  (∀ prefix, heap (start_with w self prefix σ).2 !! r = heap σ !! r)
  ∧ (∀ pattern reference,
       heap (match_ w self pattern reference σ).2 !! r = heap σ !! r)
  ∧ heap (rebuild w self σ).2 !! r = heap σ !! r
  ∧ (∀ views, heap (open_files_symbols w self views σ).2 !! r = heap σ !! r)
  ∧ (∀ fuel project filename,
       heap (current_include_path fuel w self project filename σ).2 !! r
       = heap σ !! r).
Proof.
  intros Hr. split_and!.
  - intros prefix. unfold start_with. rewrite query_heap. simpl.
    by rewrite lookup_insert_ne.
  - intros pattern reference. unfold match_, _match.
    rewrite query_heap. simpl. by rewrite lookup_insert_ne.
  - destruct (rebuild_heap w self σ) as [kwargs ->]. simpl.
    by rewrite lookup_insert_ne.
  - intros views. by apply open_files_symbols_heap.
  - intros fuel project filename. by apply current_include_path_heap.
Qed.

Lemma X5_environment_kept :
  tf_env demo_tagfile ≠ default_kwargs (subprocess demo_tagfile)
  ∧ heap (rebuild w_demo demo_tagfile demo_init.2).2 !! tf_env demo_tagfile
    = heap demo_init.2 !! tf_env demo_tagfile.
Proof.
  split; [done|].
  destruct (X5_other_dictionaries_kept w_demo demo_tagfile demo_init.2
              (tf_env demo_tagfile)) as (_ & _ & H & _); [done|exact H].
Defined.

(** X6: [rebuild] calls [Popen] once, for [gtags -v], with the root as
    working directory and the error stream captured.  When [Popen] raises,
    the exception is passed on and nothing is printed; otherwise [rebuild]
    returns whether the exit code is zero and prints the error text exactly
    when it is not. *)
Theorem X6_rebuild (w : world) (self : TagFile) (σ : state) :
  ∃ args hp,
    popen_log (rebuild w self σ).2 = popen_log σ ++ [(["gtags"; "-v"], args)]
    ∧ args !! "cwd"
      = Some (match tf_root self with Some d => VStr d | None => VNone end)
    ∧ args !! "stderr" = Some VPipe
    ∧ match popen w ["gtags"; "-v"] args hp with
      | inl exn =>
          (rebuild w self σ).1 = Raised exn
          ∧ printed (rebuild w self σ).2 = printed σ
      | inr proc =>
          (rebuild w self σ).1 = Ok (bool_decide (returncode proc = 0%Z))
          ∧ printed (rebuild w self σ).2
            = printed σ ++ (if bool_decide (returncode proc = 0%Z) then []
                            else [p_stderr proc])
      end.
Proof.
  set (kwargs := <["stderr" := VPipe]>
                   {[ "cwd" := match tf_root self with
                               | Some d => VStr d
                               | None => VNone
                               end ]} : gmap string pyval).
  exists (kwargs ∪ default ∅ (heap σ !! default_kwargs (subprocess self))),
    (heap (updated (subprocess self) kwargs σ)).
  rewrite rebuild_run. cbv zeta. fold kwargs. cbn [heap called].
  split_and!.
  - by destruct (popen w _ _ _).
  - apply lookup_union_Some_l. by simplify_map_eq.
  - apply lookup_union_Some_l. by simplify_map_eq.
  - by destruct (popen w _ _ _).
Qed.

(** X7: [match] makes one command, [global -ax pattern] or, for
    references, [global -axr pattern], and splits it into words as a shell
    would.  When that raises (an unclosed quote in the pattern), no process
    is started.  Otherwise [Popen] is called once with the words, output
    captured, and [match] returns the records of the lines of the output;
    an exception of [Popen], or of the decoding under Python 3, is passed
    on. *)
Theorem X7_match (w : world) (self : TagFile) (pattern : string)
    (reference : bool) (σ : state) :
  let command := (if reference then "global -axr " else "global -ax ")
                 +:+ pattern in
  let run := match_ w self pattern reference σ in
  match argv_of (w_py3 w) command with
  | inl exn => run.1 = Raised exn ∧ popen_log run.2 = popen_log σ
  | inr argv =>
      ∃ args hp,
        popen_log run.2 = popen_log σ ++ [(argv, args)]
        ∧ args !! "stdout" = Some VPipe
        ∧ run.1
          = match popen w argv args hp with
            | inl exn => Raised exn
            | inr proc =>
                let out := p_stdout proc in
                match (if w_py3 w then decode_utf8 w out else Some out) with
                | Some text =>
                    Ok (match_lines (w_py3 w) (splitlines (w_py3 w) text))
                | None => Raised "UnicodeDecodeError"
                end
            end
  end.
Proof.
  cbv zeta. unfold match_, _match. rewrite query_run. cbv zeta.
  assert (("global " +:+ ("-ax" +:+ (if reference then "r" else "")) +:+ " "
           +:+ pattern)
          = (if reference then "global -axr " else "global -ax ") +:+ pattern)
    as -> by by destruct reference.
  destruct (argv_of (w_py3 w) _) as [exn|argv]; [done|].
  eexists _, _. split_and!; [done| |done].
  apply lookup_union_Some_l. by simplify_map_eq.
Qed.

(** X8: keyword arguments given to one call of [create] are passed to every
    later call that does not override them: when the later command splits
    into words, [Popen] is called with them although its caller never asked
    for them. *)
Theorem X8_create_arguments_persist (w : world) (self : TagSubprocess)
    (command1 command2 : string) (argv2 : list string)
    (kwargs1 kwargs2 : gmap string pyval)
    (σ : state) (key : string) (v : pyval) :
  kwargs1 !! key = Some v →
  kwargs2 !! key = None →
  argv_of (w_py3 w) command2 = inr argv2 →
  let σ1 := (create w self command1 kwargs1 σ).2 in
  ∃ args, last (popen_log (create w self command2 kwargs2 σ1).2)
          = Some (argv2, args)
          ∧ args !! key = Some v.
Proof.
  intros H1 H2 Hargv σ1. subst σ1. rewrite (create_run w self command2).
  cbv zeta. rewrite Hargv. cbn [snd called popen_log].
  rewrite create_default_kwargs. cbn [default].
  eexists. rewrite last_snoc. split; [done|].
  rewrite lookup_union_r by done. by apply lookup_union_Some_l.
Qed.

Lemma X8_cwd_of_rebuild_persists :
  ∃ args,
    last (popen_log
            (create w_demo (subprocess demo_tagfile) "global -c Exp"
               {[ "stdout" := VPipe ]}
               (create w_demo (subprocess demo_tagfile) "gtags -v"
                  {[ "cwd" := VStr "/r" ]} demo_init.2).2).2)
    = Some (["global"; "-c"; "Exp"], args)
    ∧ args !! "cwd" = Some (VStr "/r").
Proof.
  apply (X8_create_arguments_persist w_demo (subprocess demo_tagfile)
           "gtags -v" "global -c Exp" ["global"; "-c"; "Exp"]
           {[ "cwd" := VStr "/r" ]}
           {[ "stdout" := VPipe ]} demo_init.2 "cwd" (VStr "/r"));
    by_compute.
Defined.

(** ** Completion and the symbol column *)

(** X9: when the command [global -c prefix] splits into words, the process
    started with them prints lines closed by line feeds, with no other line
    boundary inside, and the output decodes to itself, [start_with] returns
    exactly these lines, in order. *)
Theorem X9_start_with_lines (w : world) (self : TagFile) (prefix : string)
    (σ : state) (argv lines : list string) :
  argv_of (w_py3 w) ("global -c " +:+ prefix) = inr argv →
  (∀ args hp, ∃ proc, popen w argv args hp = inr proc
                      ∧ p_stdout proc = unlines lines) →
  (w_py3 w = true → decode_utf8 w (unlines lines) = Some (unlines lines)) →
  forallb (no_linebreak (w_py3 w)) lines = true →
  (start_with w self prefix σ).1 = Ok lines.
Proof.
  intros Hargv Hout Hdec Hlines. unfold start_with.
  rewrite query_run. cbv zeta. rewrite Hargv. cbn [fst].
  destruct (Hout (<["stdout":=VPipe]> ∅
                  ∪ default ∅ (heap σ !! default_kwargs (subprocess self)))
              (heap (updated (subprocess self) (<["stdout":=VPipe]> ∅) σ)))
    as (proc & -> & Hp).
  unfold query_outcome. rewrite Hp. destruct (w_py3 w) eqn:Hpy.
  - rewrite Hdec by done. by rewrite splitlines_unlines.
  - by rewrite splitlines_unlines.
Qed.

Lemma X9_two_completions :
  (start_with w_demo demo_tagfile "Exp" demo_init.2).1
  = Ok ["Exp_a"; "Exp_b"].
Proof.
  apply (X9_start_with_lines w_demo demo_tagfile "Exp" demo_init.2
           ["global"; "-c"; "Exp"] ["Exp_a"; "Exp_b"]);
    [by_compute|by intros; eexists|by intros|by_compute].
Defined.

(** X10: for an output whose lines each start with a name free of blanks,
    followed by a blank and the rest, the symbol column is the list of
    these names, in order. *)
Theorem X10_symbol_column_rows (py3 : bool) (rows : list (string * string)) :
  forallb (λ row, str_all notblank row.1
                  && no_linebreak py3 (row.1 +:+ " " +:+ row.2)) rows = true →
  symbol_column py3 (unlines ((λ row, row.1 +:+ " " +:+ row.2) <$> rows))
  = rows.*1.
Proof.
  intros Hrows. unfold symbol_column. rewrite splitlines_unlines.
  - revert Hrows. induction rows as [|[s r] rows IH]; [done|].
    cbn [forallb fmap list_fmap fst snd].
    intros [[Hs _]%andb_true_iff Hrows]%andb_true_iff.
    rewrite first_column_row by done. f_equal. by apply IH.
  - revert Hrows. induction rows as [|[s r] rows IH]; [done|].
    cbn [forallb fmap list_fmap fst snd].
    intros [[_ Hl]%andb_true_iff Hrows]%andb_true_iff.
    rewrite Hl. by apply IH.
Qed.

Lemma X10_two_rows :
  symbol_column true
    (unlines ["main   12 a.c int main(void)"; "f 3 b.c void f()"])
  = ["main"; "f"].
Proof.
  apply (X10_symbol_column_rows true
           [("main", "  12 a.c int main(void)"); ("f", "3 b.c void f()")]).
  by_compute.
Defined.

(** ** Records *)

(** X11: every record that [_match] builds comes from a line of the output
    and has the four groups: symbol, line number and path are the first
    three fields of the line, not empty and free of white space, and the
    signature holds no line feed. *)
Theorem X11_records_are_well_formed (py3 : bool) (lines : list string)
    (r : gmap string pyval) :
  r ∈ match_lines py3 lines →
  ∃ l symbol linenum path signature,
    l ∈ lines
    ∧ r = tag_record symbol linenum path signature
    ∧ take 3 (fields py3 l) = [symbol; linenum; path]
    ∧ is_word py3 symbol = true ∧ is_word py3 linenum = true
    ∧ is_word py3 path = true
    ∧ str_all notnl signature = true.
Proof.
  intros (l & Hl & Hr)%match_lines_elem. unfold line_record in Hr.
  pose proof (fields_words py3 l) as Hw.
  destruct (fields py3 l) as [|f1 [|f2 [|f3 rest]]] eqn:Ef; try done.
  destruct (bool_decide (rest ≠ []) || ends_space py3 l); [|done].
  injection Hr as <-.
  apply Forall_cons in Hw as [H1 Hw]. apply Forall_cons in Hw as [H2 Hw].
  apply Forall_cons in Hw as [H3 _].
  exists l, f1, f2, f3, (take_while notnl (skip_fields py3 3 l)).
  split_and!; try done; [by rewrite Ef|apply str_all_take_while].
Qed.

Lemma X11_one_record :
  ∃ l symbol linenum path signature,
    l ∈ ["noise"; "f 3 b.c void f()"]
    ∧ tag_record "f" "3" "b.c" "void f()"
      = tag_record symbol linenum path signature
    ∧ is_word true path = true.
Proof.
  destruct (X11_records_are_well_formed true ["noise"; "f 3 b.c void f()"]
              (tag_record "f" "3" "b.c" "void f()"))
    as (l & a & b & c & d & ? & ? & _ & _ & _ & ? & _).
  - by_compute.
  - by exists l, a, b, c, d.
Defined.

(** X12: a line made of three fields and a signature, with any white space
    between them, is parsed into exactly these four groups, provided the
    signature holds no line feed and does not start with white space. *)
Theorem X12_line_of_the_tool (py3 : bool)
    (symbol gap1 linenum gap2 path gap3 signature : string) :
  is_word py3 symbol = true → is_gap py3 gap1 = true →
  is_word py3 linenum = true → is_gap py3 gap2 = true →
  is_word py3 path = true → is_gap py3 gap3 = true →
  lstrip py3 signature = signature → str_all notnl signature = true →
  match_lines py3
    [symbol +:+ gap1 +:+ linenum +:+ gap2 +:+ path +:+ gap3 +:+ signature]
  = [tag_record symbol linenum path signature].
Proof.
  intros Hs Hg1 Hl Hg2 Hp Hg3 Hsig Hnl.
  rewrite match_lines_single, re_search_TAGS_RE, lstrip_word_app by done.
  unfold tag_groups. cbn [read_fields].
  rewrite (field_word_gap py3 symbol gap1) by (by rewrite ?lstrip_word_app).
  rewrite (field_word_gap py3 linenum gap2) by (by rewrite ?lstrip_word_app).
  rewrite (field_word_gap py3 path gap3) by done.
  simpl. rewrite groupdict_tag_record. do 2 f_equal.
  rewrite <-(app_empty_r signature) at 1.
  rewrite take_while_app by done. simpl. apply app_empty_r.
Qed.

Lemma X12_columns_of_global :
  match_lines true ["main" +:+ "   " +:+ "12" +:+ " " +:+ "src/a.c" +:+ "  "
                    +:+ "int main(void)"]
  = [tag_record "main" "12" "src/a.c" "int main(void)"].
Proof.
  apply (X12_line_of_the_tool true "main" "   " "12" " " "src/a.c" "  "
           "int main(void)"); by_compute.
Defined.

(** ** Include directives *)

(** X13: a line with a quoted directive (indentation, the word, a gap of
    white space, a quote) adds to the set the text between that quote and
    the last quote of the line, whatever follows it. *)
Theorem X13_scan_line_quoted (py3 : bool) (includes : gset string)
    (indent gap target after : string) :
  str_all (isspace py3) indent = true →
  is_gap py3 gap = true →
  str_all notnl target = true →
  noquote (take_while notnl after) = true →
  scan_line py3 includes (quoted_line indent gap target after)
  = {[target]} ∪ includes.
Proof.
  intros Hi Hg Ht Hq. unfold scan_line, quoted_line.
  rewrite lstrip_indent; [|done|].
  - by rewrite startswith_app, re_search_quoted by done.
  - change ("#include" +:+ ?x) with (String "#" ("include" +:+ x)).
    unfold lstrip. cbn [drop_while]. by rewrite isspace_hash.
Qed.

Lemma X13_header_and_comment :
  scan_line true ∅
    (quoted_line "  " " " "util/list.h" (" /* lists */" +:+ String nl ""))
  = {["util/list.h"]} ∪ ∅.
Proof.
  apply (X13_scan_line_quoted true ∅ "  " " " "util/list.h"
           (" /* lists */" +:+ String nl "")); by_compute.
Defined.

(** X14: the targets [_find_includes] returns are those its lines
    contribute one by one: the file must exist, and order and repetition of
    the lines do not matter. *)
Theorem X14_find_includes_by_line (py3 : bool) (fs : filesys)
    (filename t : string) :
  t ∈ _find_includes py3 fs filename ↔
    isfile fs filename = true
    ∧ ∃ line, line ∈ file_lines fs filename ∧ t ∈ scan_line py3 ∅ line.
Proof.
  unfold _find_includes. destruct (isfile fs filename); simpl.
  - rewrite elem_of_foldl_scan_line. set_solver.
  - set_solver.
Qed.

(** ** The closure of the includes *)

(** X15: [_find_all_includes] returns the set of the paths reached from
    the seed along resolved quoted includes (none, one or more steps): this
    is the one set any order of [todo.pop()] arrives at, and the run with
    enough turns returns it. *)
Theorem X15_closure_is_reachability (py3 : bool) (fs : filesys)
    (basepaths : list string) (filename : string) :
  ∃ result fuel,
    (∀ x, x ∈ result ↔ rtc (includes_edge py3 fs basepaths) filename x)
    ∧ (∀ r, returns py3 fs basepaths filename r ↔ r = result)
    ∧ (∀ n, fuel ≤ n →
         _find_all_includes n py3 fs basepaths filename = Some result).
Proof.
  destruct (run_returns_seed py3 fs basepaths filename)
    as (fuel & result & Hrun).
  destruct (Hrun fuel) as [_ Hret]; [done|].
  exists result, fuel. split_and!.
  - intros x. by apply returns_reach.
  - intros r. split; [|by intros ->].
    intros Hr. by eapply returns_unique.
  - intros n Hn. by destruct (Hrun n Hn).
Qed.


(** ** Open files *)

(** X17: when a view has no file name (a buffer never saved),
    [open_files_symbols] raises [TypeError] and starts nothing.  Otherwise
    it looks only at the views whose file exists, the others changing
    nothing in what it does and returns: it makes one command,
    [global -q -f] followed by their names between double quotes in the
    order of the views; when splitting it into words raises no process is
    started, and otherwise [Popen] is called once with the words, output
    captured. *)
Theorem X17_open_files_symbols_views (w : world) (self : TagFile)
    (views : list (option string)) (σ : state) :
  let run := open_files_symbols w self views σ in
  if bool_decide (None ∈ views) then run = (Raised "TypeError", σ)
  else
    let files := filter (λ x, isfile (w_fs w) x = true) (omap id views) in
    let command :=
      "global -q -f "
      +:+ join " " ((λ x, String dquote x +:+ String dquote "") <$> files) in
    run = open_files_symbols w self (Some <$> files) σ
    ∧ match argv_of (w_py3 w) command with
      | inl exn => run.1 = Raised exn ∧ popen_log run.2 = popen_log σ
      | inr argv =>
          ∃ args, popen_log run.2 = popen_log σ ++ [(argv, args)]
                  ∧ args !! "stdout" = Some VPipe
      end.
Proof.
  cbv zeta. pose proof (quoted_files_cases (w_fs w) views) as Hq.
  case_bool_decide.
  { unfold open_files_symbols. by rewrite Hq. }
  rewrite (open_files_symbols_run _ _ _ _ _ Hq).
  split.
  - symmetry. apply open_files_symbols_run.
    rewrite quoted_files_cases.
    rewrite bool_decide_eq_false_2 by apply None_not_in_Some.
    by rewrite omap_id_Some, filter_isfile_idemp.
  - rewrite query_run. cbv zeta.
    destruct (argv_of (w_py3 w) _) as [exn|argv]; [done|].
    eexists. split; [done|].
    apply lookup_union_Some_l. by simplify_map_eq.
Qed.

(** ** A fresh [TagFile] *)

(** X18: for every [TagFile] the constructor returns, a [rebuild] right
    after it calls [Popen] for [gtags -v] with these keyword arguments and
    no other: the environment dictionary of the constructor, the root as
    working directory, the error stream captured, and [shell] on Windows.
    Its output stream is not captured. *)
Theorem X18_rebuild_after_init (w : world) (root_dir : option string)
    (extra_paths : list string) (σ σ1 : state) (self : TagFile) :
  TagFile_init w root_dir extra_paths σ = (Ok self, σ1) →
  ∃ args,
    popen_log (rebuild w self σ1).2 = popen_log σ ++ [(["gtags"; "-v"], args)]
    ∧ args !! "env" = Some (VRef (tf_env self))
    ∧ args !! "cwd" = Some (match root_dir with
                            | Some d => VStr d
                            | None => VNone
                            end)
    ∧ args !! "stderr" = Some VPipe
    ∧ args !! "shell" = (if IS_WINDOWS w then Some (VBool true) else None)
    ∧ dom args ⊆ {["env"; "cwd"; "stderr"; "shell"]}.
Proof.
  intros (-> & Hk & Hlog)%TagFile_init_Ok.
  rewrite rebuild_run. cbv zeta.
  cbn [fresh_tagfile subprocess default_kwargs tf_root tf_env].
  exists (<["stderr" := VPipe]>
            {[ "cwd" := match root_dir with
                        | Some d => VStr d
                        | None => VNone
                        end ]}
          ∪ kwargs_built w (next_ref σ)).
  split.
  - destruct (popen w _ _ _); cbn [snd called popen_log default_kwargs];
      by rewrite Hlog, Hk.
  - unfold kwargs_built.
    destruct (IS_WINDOWS w), root_dir as [d|];
      (split_and!; [by simplify_map_eq..|set_solver]).
Qed.

Lemma X18_first_rebuild_of_demo :
  ∃ args,
    popen_log (rebuild w_demo demo_tagfile demo_init.2).2
    = [(["gtags"; "-v"], args)]
    ∧ args !! "env" = Some (VRef 0)
    ∧ args !! "cwd" = Some (VStr "/r")
    ∧ args !! "stderr" = Some VPipe
    ∧ args !! "shell" = None
    ∧ dom args ⊆ {["env"; "cwd"; "stderr"; "shell"]}.
Proof.
  apply (X18_rebuild_after_init w_demo (Some "/r") [] state0 demo_init.2
           demo_tagfile).
  reflexivity.
Defined.

(** ** The words a command is split into *)

(** X19: for a pattern that is one plain word (not empty; no white space,
    quote or backslash; ASCII under Python 2), [match] calls [Popen] once,
    with the three words [global], [-ax] or [-axr], and the pattern. *)
Theorem X19_match_plain_pattern (w : world) (self : TagFile)
    (pattern : string) (reference : bool) (σ : state) :
  shell_word pattern = true →
  (w_py3 w = false → is_ascii pattern = true) →
  ∃ args,
    popen_log (match_ w self pattern reference σ).2
    = popen_log σ
      ++ [(["global"; if reference then "-axr" else "-ax"; pattern], args)].
Proof.
  intros Hp Ha. unfold match_, _match. rewrite query_run. cbv zeta.
  set (options := if reference then "-axr" else "-ax").
  assert ("global " +:+ ("-ax" +:+ (if reference then "r" else "")) +:+ " "
          +:+ pattern
          = join " " [("global", "global"); (options, options);
                      (pattern, pattern)].*1) as ->
    by by destruct reference.
  rewrite argv_of_spelled.
  - by eexists.
  - constructor; [by apply spells_word|].
    constructor; [apply spells_word; by destruct reference|].
    constructor; [by apply spells_word|constructor].
  - intros Hpy. cbn [fmap list_fmap fst forallb]. rewrite (Ha Hpy).
    by destruct reference.
Qed.

Lemma X19_references_to_main :
  ∃ args,
    popen_log (match_ w_demo demo_tagfile "main" true demo_init.2).2
    = popen_log demo_init.2 ++ [(["global"; "-axr"; "main"], args)].
Proof.
  apply (X19_match_plain_pattern w_demo demo_tagfile "main" true
           demo_init.2); [by_compute|done].
Defined.



(** X21: when every view has a file name and no name of an existing file
    holds a double quote or a backslash (and, under Python 2, all are
    ASCII), [open_files_symbols] calls [Popen] once with the words
    [global], [-q], [-f] and then the name of each view whose file exists
    as one word, in the order of the views. *)
Theorem X21_open_files_arguments (w : world) (self : TagFile)
    (names : list string) (σ : state) :
  let files := filter (λ x, isfile (w_fs w) x = true) names in
  forallb (quotable dquote) files = true →
  (w_py3 w = false → forallb is_ascii files = true) →
  ∃ args,
    popen_log (open_files_symbols w self (Some <$> names) σ).2
    = popen_log σ ++ [("global" :: "-q" :: "-f" :: files, args)].
Proof.
  intros files Hq Ha.
  rewrite (open_files_symbols_run w self _ σ (in_quotes dquote <$> files)).
  2:{ rewrite quoted_files_cases.
      rewrite bool_decide_eq_false_2 by apply None_not_in_Some.
      by rewrite omap_id_Some. }
  rewrite query_run. cbv zeta.
  destruct (decide (files = [])) as [->|Hne].
  { cbn [fmap list_fmap join]. change ("global -q -f " +:+ "")
      with "global -q -f ". rewrite argv_of_global_q_f. by eexists. }
  set (items := ("global", "global") :: ("-q", "-q") :: ("-f", "-f")
                :: ((λ x, (in_quotes dquote x, x)) <$> files)).
  assert ("global -q -f " +:+ join " " (in_quotes dquote <$> files)
          = join " " items.*1) as ->.
  { unfold items. rewrite !fmap_cons, fmap_fst_pairs. cbn [fst].
    rewrite !join_literal_cons by (try done; by destruct files). done. }
  rewrite argv_of_spelled.
  - unfold items. rewrite !fmap_cons, fmap_snd_pairs. by eexists.
  - unfold items. do 3 (constructor; [by apply spells_word|]).
    by apply spelled_names.
  - intros Hpy. unfold items. rewrite !fmap_cons, fmap_fst_pairs.
    cbn [fst forallb]. change (is_ascii "global") with true.
    change (is_ascii "-q") with true. change (is_ascii "-f") with true.
    cbn [andb]. rewrite forallb_fmap.
    eapply forallb_impl; [|by apply Ha].
    intros y Hy. by apply is_ascii_in_quotes.
Qed.

Lemma X21_two_views_one_file :
  ∃ args,
    popen_log
      (open_files_symbols w_demo demo_tagfile
         (Some <$> ["/r/a.c"; "/r/gone.c"]) demo_init.2).2
    = popen_log demo_init.2 ++ [(["global"; "-q"; "-f"; "/r/a.c"], args)].
Proof.
  apply (X21_open_files_arguments w_demo demo_tagfile
           ["/r/a.c"; "/r/gone.c"] demo_init.2); [by_compute|done].
Defined.
